(** * fio clock functions (gettime.c): a shallow embedding and its properties

    Part I is the embedding, function by function:

    - [Int]: the C integer types of an LP64 target ([long], [unsigned long]
      and [unsigned long long] are all 64 bits wide), as [Z] with the
      wrap-around of every conversion written out;
    - [utime_since], [mtime_since]: elapsed time between two [struct timeval];
    - [fio_gettime]: the clock accessor, over the module's global variables
      and the readings the operating system hands back;
    - [get_cycles_per_usec], [calibrate_cpu_clock]: calibration of the CPU
      cycle counter, written over an interface of [double] arithmetic that
      is instantiated with IEEE 754 binary64 and with the real numbers;
    - [utime_since_now], [mtime_since_now], [time_since_now]: elapsed time up
      to a sample taken now;
    - [DebugTime]: the per-call-site accounting of [FIO_DEBUG_TIME].

    Part II states and proves the properties, in the same order. Part III
    proves further properties of the same functions, and Part IV those of
    the call accounting. *)

From Stdlib Require Import ZArith Lia List Bool String.
From Stdlib Require Floats Reals Lra.
Import ListNotations.
Open Scope Z_scope.

(* ################################################################## *)
(** * Part I: the embedding *)

(* ================================================================== *)
(** ** Machine integers *)

Module Int.

(** Conversion of a mathematical value to [unsigned long] (and to
    [unsigned long long]): reduction modulo 2^64. *)
Definition to_ulong (z : Z) : Z := z mod 2^64.

(** Conversion to [long]: the two's complement representative. Signed
    overflow is modelled as wrapping, which is what the targets of fio do. *)
Definition to_long (z : Z) : Z := (z + 2^63) mod 2^64 - 2^63.

(** The values of the two unsigned types, and of [long]. *)
Definition ulong_range (z : Z) : Prop := 0 <= z < 2^64.

Definition long_range (z : Z) : Prop := - 2^63 <= z < 2^63.

End Int.

Import Int.

(* ================================================================== *)
(** ** Time samples *)

(** [struct timeval]: [tv_sec] is a [time_t], [tv_usec] a [suseconds_t];
    both are [long]. *)
Record timeval : Type := mk_timeval { tv_sec : Z; tv_usec : Z }.

(** [struct timespec], as [clock_gettime] fills it. *)
Record timespec : Type := mk_timespec { ts_sec : Z; ts_nsec : Z }.

(** The order on time samples: seconds first, then microseconds. *)
Definition tv_lt (a b : timeval) : Prop :=
  tv_sec a < tv_sec b \/ (tv_sec a = tv_sec b /\ tv_usec a < tv_usec b).

(** [a] is not after [b]. *)
Definition tv_le (a b : timeval) : Prop := ~ tv_lt b a.

(* ================================================================== *)
(** ** Time arithmetic: [utime_since], [mtime_since] *)

(** The two deltas both functions start from, each a [long]:
    [sec = e->tv_sec - s->tv_sec; usec = e->tv_usec - s->tv_usec;] *)
Definition delta_sec (s e : timeval) : Z := to_long (tv_sec e - tv_sec s).

Definition delta_usec (s e : timeval) : Z := to_long (tv_usec e - tv_usec s).

(** [if (sec > 0 && usec < 0) { sec--; usec += 1000000; }] *)
Definition borrow (sec usec : Z) : Z * Z :=
  if (0 <? sec) && (usec <? 0)
  then (to_long (sec - 1), to_long (usec + 1000000))
  else (sec, usec).

(** [if (sec < 0 || (sec == 0 && usec < 0)) return 0;] *)
Definition time_warp (sec usec : Z) : bool :=
  (sec <? 0) || ((sec =? 0) && (usec <? 0)).

(** [unsigned long long utime_since(struct timeval *s, struct timeval *e)] *)
Definition utime_since (s e : timeval) : Z :=
  let sec := delta_sec s e in
  let usec := delta_usec s e in
  let '(sec, usec) := borrow sec usec in
  if time_warp sec usec then 0
  else
    (* ret = sec * 1000000ULL + usec, in unsigned long long *)
    to_ulong (to_ulong (to_ulong sec * 1000000) + to_ulong usec).

(** [unsigned long mtime_since(struct timeval *s, struct timeval *e)] *)
Definition mtime_since (s e : timeval) : Z :=
  let sec := delta_sec s e in
  let usec := delta_usec s e in
  let '(sec, usec) := borrow sec usec in
  if time_warp sec usec then 0
  else
    (* sec *= 1000UL; usec /= 1000UL: computed in unsigned long, stored in long *)
    let sec := to_long (to_ulong (to_ulong sec * 1000)) in
    let usec := to_long (to_ulong usec / 1000) in
    let ret := to_long (sec + usec) in
    to_ulong ret.

(** The deltas are the mathematical differences whenever these fit a [long]. *)
Definition deltas_fit (s e : timeval) : Prop :=
  long_range (tv_sec e - tv_sec s) /\ long_range (tv_usec e - tv_usec s).

(** Microsecond fields of a normalised [struct timeval]. *)
Definition usec_ok (tv : timeval) : Prop := 0 <= tv_usec tv < 1000000.

(* ================================================================== *)
(** ** The process: globals of gettime.c, and the operating system *)

(** Modelled from the spec: [enum fio_cs], which fio.h declares and gettime.c
    only uses. Its values are the three source kinds of the Clock Source (the
    wall-clock syscall, the monotonic syscall, the calibrated cycle counter)
    under the names gettime.c gives them; [CS_other n] is any other value the
    variable may hold (the [default:] branch of the switch). The model is the
    build with [ARCH_HAVE_CPU_CLOCK] defined and [FIO_DEBUG_TIME]
    undefined. *)
Inductive fio_cs : Type :=
| CS_GTOD
| CS_CGETTIME
| CS_CPUCLOCK
| CS_other (n : Z).

(** What [log_err] writes (the trailing newline left out). *)
Inductive log_entry : Type :=
| LogErr (msg : string)
| LogErrInt (msg : string) (arg : Z).

(** The variables of gettime.c and the two it reads from the rest of fio:
    [fio_clock_source], and [fio_tv], a pointer that is either [NULL]
    ([None]) or points at a time sample kept elsewhere. *)
Record globals : Type := mk_globals {
  cycles_per_usec : Z;
  last_cycles : Z;
  last_tv : timeval;
  last_tv_valid : Z;
  fio_clock_source : fio_cs;
  fio_tv : option timeval
}.

(** The operating system as gettime.c sees it: the results its next calls
    of [gettimeofday], [clock_gettime] and [get_cpu_clock] will give, and the
    error log. A syscall result of [None] is a failed call (-1), which
    leaves the caller's buffer as it was. *)
Record world : Type := mk_world {
  gtod_tape : list (option timeval);
  cgettime_tape : list (option timespec);
  cpu_tape : list Z;
  err_log : list log_entry
}.

(** The process and what surrounds it. *)
Record machine : Type := mk_machine { glob : globals; env : world }.

(** How a call ends: it returns ([Done]); a failed [assert] aborts the
    process ([Aborted]); it reaches behaviour that C leaves undefined
    ([Fault]); or, the model's own, the tape an operation reads has no result
    left to hand out ([Starved]). *)
Inductive outcome (A : Type) : Type :=
| Done (a : A) (m : machine)
| Aborted (m : machine)
| Fault (m : machine)
| Starved.

Arguments Done {A} a m.
Arguments Aborted {A} m.
Arguments Fault {A} m.
Arguments Starved {A}.

(** Code of gettime.c that returns an [A]: a state and error monad over the
    machine. *)
Definition M (A : Type) : Type := machine -> outcome A.

Definition ret {A : Type} (a : A) : M A := fun m => Done a m.

Definition bind {A B : Type} (c : M A) (k : A -> M B) : M B :=
  fun m =>
    match c m with
    | Done a m' => k a m'
    | Aborted m' => Aborted m'
    | Fault m' => Fault m'
    | Starved => Starved
    end.

Declare Scope gettime_scope.
Delimit Scope gettime_scope with gettime.
Notation "x <- c ;; k" := (bind c (fun x => k))
  (at level 61, c at next level, right associativity) : gettime_scope.
Notation "c ;;; k" := (bind c (fun _ => k))
  (at level 61, right associativity) : gettime_scope.
Open Scope gettime_scope.

Definition get_globals : M globals := fun m => Done (glob m) m.

Definition set_globals (g : globals) : M unit :=
  fun m => Done tt (mk_machine g (env m)).

(** [gettimeofday(tp, NULL)]: no caller looks at the value returned, so the
    model returns the buffer only. *)
Definition gettimeofday (tp : timeval) : M timeval :=
  fun m =>
    match gtod_tape (env m) with
    | [] => Starved
    | r :: rest =>
        let w := env m in
        Done (match r with Some tv => tv | None => tp end)
             (mk_machine (glob m)
                (mk_world rest (cgettime_tape w) (cpu_tape w) (err_log w)))
    end.

(** [clock_gettime(CLOCK_..., &ts)]: [None] when the call returns a negative
    value. *)
Definition clock_gettime : M (option timespec) :=
  fun m =>
    match cgettime_tape (env m) with
    | [] => Starved
    | r :: rest =>
        let w := env m in
        Done r (mk_machine (glob m)
                  (mk_world (gtod_tape w) rest (cpu_tape w) (err_log w)))
    end.

(** [get_cpu_clock()]: the next reading of the cycle counter. *)
Definition get_cpu_clock : M Z :=
  fun m =>
    match cpu_tape (env m) with
    | [] => Starved
    | c :: rest =>
        let w := env m in
        Done c (mk_machine (glob m)
                  (mk_world (gtod_tape w) (cgettime_tape w) rest (err_log w)))
    end.

(** [log_err(...)]: one more entry in the error log. *)
Definition log_err (e : log_entry) : M unit :=
  fun m =>
    let w := env m in
    Done tt (mk_machine (glob m)
               (mk_world (gtod_tape w) (cgettime_tape w) (cpu_tape w)
                  (err_log w ++ [e]))).

(** [assert(0)] *)
Definition assert_fail {A : Type} : M A := fun m => Aborted m.

(** Behaviour that C leaves undefined: an integer division by zero, or a
    conversion to an integer type that cannot hold the value. *)
Definition undefined {A : Type} : M A := fun m => Fault m.

(** A loop of the model out of fuel. *)
Definition starve {A : Type} : M A := fun _ => Starved.

Definition get_machine : M machine := fun m => Done m m.

(* ================================================================== *)
(** ** [fio_gettime] *)

(** The [CS_CPUCLOCK] conversion: [usecs = t / cycles_per_usec;
    tp->tv_sec = usecs / 1000000; tp->tv_usec = usecs % 1000000;] *)
Definition cycles_to_timeval (t cpu : Z) : timeval :=
  let usecs := t / cpu in
  mk_timeval (to_long (usecs / 1000000)) (to_long (usecs mod 1000000)).

(** The fix-up at the end of [fio_gettime]:
    [if (last_tv_valid) { if (tp->tv_sec < last_tv.tv_sec) ... }] *)
Definition fixup (g : globals) (tp : timeval) : timeval :=
  if last_tv_valid g =? 0 then tp
  else if tv_sec tp <? tv_sec (last_tv g)
       then mk_timeval (tv_sec (last_tv g)) (tv_usec tp)
       else if (tv_sec (last_tv g) =? tv_sec tp) && (tv_usec tp <? tv_usec (last_tv g))
            then mk_timeval (tv_sec tp) (tv_usec (last_tv g))
            else tp.

(** The switch on [fio_clock_source]: what [*tp] holds after it. *)
Definition read_clock_source (tp : timeval) : M timeval :=
  g <- get_globals ;;
  match fio_clock_source g with
  | CS_GTOD => gettimeofday tp
  | CS_CGETTIME =>
      r <- clock_gettime ;;
      match r with
      | None => log_err (LogErr "fio: clock_gettime fails") ;;; assert_fail
      | Some ts => ret (mk_timeval (ts_sec ts) (Z.quot (ts_nsec ts) 1000))
      end
  | CS_CPUCLOCK =>
      t <- get_cpu_clock ;;
      let t := if t <? last_cycles g then last_cycles g else t in
      if cycles_per_usec g =? 0 then undefined
      else
        set_globals (mk_globals (cycles_per_usec g) t (last_tv g)
                       (last_tv_valid g) (fio_clock_source g) (fio_tv g)) ;;;
        ret (cycles_to_timeval t (cycles_per_usec g))
  | CS_other n =>
      log_err (LogErrInt "fio: invalid clock source %d" n) ;;; ret tp
  end.

(** [void fio_gettime(struct timeval *tp, void *caller)]: [tp] is what the
    caller's buffer holds on entry, the value returned what it holds on
    exit. *)
Definition fio_gettime (tp : timeval) : M timeval :=
  g <- get_globals ;;
  match fio_tv g with
  | Some fixed => ret fixed
  | None =>
      tp <- read_clock_source tp ;;
      g <- get_globals ;;
      let tp := fixup g tp in
      set_globals (mk_globals (cycles_per_usec g) (last_cycles g) tp 1
                     (fio_clock_source g) (fio_tv g)) ;;;
      ret tp
  end.

(** Successive calls, one per buffer of [tps]; the time samples returned, in
    order. *)
Fixpoint fio_gettime_seq (tps : list timeval) : M (list timeval) :=
  match tps with
  | [] => ret []
  | tp :: rest =>
      tv <- fio_gettime tp ;;
      tvs <- fio_gettime_seq rest ;;
      ret (tv :: tvs)
  end.

(** [fio_clock_init] resets [last_tv_valid]; the calibration it then runs is
    [calibrate_cpu_clock] below. *)
Definition reset_last_tv : M unit :=
  g <- get_globals ;;
  set_globals (mk_globals (cycles_per_usec g) (last_cycles g) (last_tv g) 0
                 (fio_clock_source g) (fio_tv g)).

(* ================================================================== *)
(** ** [get_cycles_per_usec]: one sampling round *)

(** The [do { ... } while (1)] loop: read the wall clock into [e] until
    [utime_since(&s, &e) >= 10]. Every turn takes one reading off the tape, so
    the length of the tape (plus one) is fuel enough: the loop either leaves
    with its [e] or finds the tape empty. *)
Fixpoint poll_wall_clock (fuel : nat) (s e : timeval) : M timeval :=
  match fuel with
  | O => starve
  | S fuel =>
      e <- gettimeofday e ;;
      let elapsed := utime_since s e in
      if 10 <=? elapsed then ret e else poll_wall_clock fuel s e
  end.

(** [static unsigned long get_cycles_per_usec(void)]. [junk] is what the
    uninitialised locals [s] and [e] hold on entry. *)
Definition get_cycles_per_usec (junk : timeval) : M Z :=
  s <- gettimeofday junk ;;
  c_s <- get_cpu_clock ;;
  m <- get_machine ;;
  _e <- poll_wall_clock (S (List.length (gtod_tape (env m)))) s junk ;;
  c_e <- get_cpu_clock ;;
  ret (to_ulong (c_e - c_s)).

(* ================================================================== *)
(** ** [calibrate_cpu_clock] *)

(** The arithmetic of C's [double] that the calibration uses. The functions
    below are written once, over this interface; [Binary64] instantiates it
    with IEEE 754 binary64 (what the compiled code computes with), [Exact]
    with the real numbers (the same program, without rounding).

    [d_to_ulong] is the conversion to [unsigned long]: the value with its
    fraction dropped, [None] when that is not a value of the type, where C
    leaves the behaviour undefined. [d_nonzero] is the truth value of a
    [double] in [if (delta)], [d_gt] is [>]. *)
Class DoubleOps (D : Type) : Type := {
  d_of_Z : Z -> D;
  d_to_ulong : D -> option Z;
  d_add : D -> D -> D;
  d_sub : D -> D -> D;
  d_mul : D -> D -> D;
  d_div : D -> D -> D;
  d_sqrt : D -> D;
  d_fmax : D -> D -> D;
  d_fmin : D -> D -> D;
  d_gt : D -> D -> bool;
  d_nonzero : D -> bool
}.

(** [a[i] = v] on an array held as a list; an index out of range writes
    nothing (the code never has one). *)
Fixpoint array_set (a : list Z) (i : nat) (v : Z) : list Z :=
  match a, i with
  | [], _ => []
  | _ :: t, O => v :: t
  | h :: t, S i => h :: array_set t i v
  end.

(** The sum of a list of integers. *)
Definition list_sum (xs : list Z) : Z := fold_right Z.add 0 xs.

Section Calibration.

Context {D : Type} {ops : DoubleOps D}.

(** What the locals [s], [e] of a sampling round hold on entry. *)
Variable junk : timeval.

(** The body of the first loop, after [cycles[i]] is read ([Sq] is the
    source's [S], a name the constructor of [nat] has taken):
    [delta = cycles[i] - mean;
     if (delta) { mean += delta / (i + 1.0); S += delta * (cycles[i] - mean); }] *)
Definition welford_step (i : nat) (c : Z) (st : D * D) : D * D :=
  let '(mean, Sq) := st in
  let delta := d_sub (d_of_Z c) mean in
  if d_nonzero delta then
    let mean := d_add mean (d_div delta (d_add (d_of_Z (Z.of_nat i)) (d_of_Z 1))) in
    let Sq := d_add Sq (d_mul delta (d_sub (d_of_Z c) mean)) in
    (mean, Sq)
  else (mean, Sq).

(** [for (i = 0; i < 10; i++) { cycles[i] = get_cycles_per_usec(); ... }],
    with [n] turns left, at index [i]. *)
Fixpoint sample_loop (n i : nat) (cycles : list Z) (st : D * D)
  : M (list Z * (D * D)) :=
  match n with
  | O => ret (cycles, st)
  | S n =>
      c <- get_cycles_per_usec junk ;;
      let cycles := array_set cycles i c in
      let st := welford_step i (nth i cycles 0) st in
      sample_loop n (S i) cycles st
  end.

(** The first half of [calibrate_cpu_clock], up to and including
    [S = sqrt(S / (10 - 1.0))]: the array, [mean] and [S]. [cycles0] is what
    the uninitialised array holds on entry. *)
Definition calibration_stats (cycles0 : list Z) : M (list Z * D * D) :=
  c0 <- get_cycles_per_usec junk ;;
  let cycles := array_set cycles0 0 c0 in
  r <- sample_loop 10 0 cycles (d_of_Z 0, d_of_Z 0) ;;
  let '(cycles, (mean, Sq)) := r in
  let Sq := d_sqrt (d_div Sq (d_sub (d_of_Z 10) (d_of_Z 1))) in
  ret (cycles, mean, Sq).

(** The test of the second loop, negated:
    [if ((fmax(this, mean) - fmin(this, mean)) > S) continue;] *)
Definition retained (mean Sq : D) (c : Z) : bool :=
  let this := d_of_Z c in
  negb (d_gt (d_sub (d_fmax this mean) (d_fmin this mean)) Sq).

(** [for (i = 0; i < 10; i++) { ...; samples++; avg += this; }], with [n]
    turns left, at index [i]; [None] when [avg += this] leaves the values of
    [unsigned long]. *)
Fixpoint average_loop (n i : nat) (cycles : list Z) (mean Sq : D)
  (samples avg : Z) : option (Z * Z) :=
  match n with
  | O => Some (samples, avg)
  | S n =>
      let c := nth i cycles 0 in
      if retained mean Sq c then
        match d_to_ulong (d_add (d_of_Z avg) (d_of_Z c)) with
        | Some avg => average_loop n (S i) cycles mean Sq (samples + 1) avg
        | None => None
        end
      else average_loop n (S i) cycles mean Sq samples avg
  end.

(** [static void calibrate_cpu_clock(void)]. The [dprint] calls, and the
    scaling of [S] and [mean] they alone use, write nothing to the state. *)
Definition calibrate_cpu_clock (cycles0 : list Z) : M unit :=
  r <- calibration_stats cycles0 ;;
  let '(cycles, mean, Sq) := r in
  match average_loop 10 0 cycles mean Sq 0 0 with
  | None => undefined
  | Some (samples, avg) =>
      (* avg /= (samples * 10) *)
      if samples * 10 =? 0 then undefined
      else
        let avg := avg / (samples * 10) in
        g <- get_globals ;;
        set_globals (mk_globals avg (last_cycles g) (last_tv g)
                       (last_tv_valid g) (fio_clock_source g) (fio_tv g))
  end.

(** [void fio_clock_init(void)] *)
Definition fio_clock_init (cycles0 : list Z) : M unit :=
  reset_last_tv ;;; calibrate_cpu_clock cycles0.

(* ------------------------------------------------------------------ *)
(** *** The calibration as a function of its candidates *)

(** [n] sampling rounds in a row, and the candidates they return. *)
Fixpoint sample_rounds (n : nat) : M (list Z) :=
  match n with
  | O => ret []
  | S n =>
      c <- get_cycles_per_usec junk ;;
      cs <- sample_rounds n ;;
      ret (c :: cs)
  end.

(** The incremental rule run over a list of candidates, the first of them
    being number [i]. *)
Fixpoint welford (i : nat) (xs : list Z) (st : D * D) : D * D :=
  match xs with
  | [] => st
  | x :: xs => welford (S i) xs (welford_step i x st)
  end.

(** The second loop over a list of candidates. *)
Fixpoint accumulate (xs : list Z) (avg : Z) : option Z :=
  match xs with
  | [] => Some avg
  | x :: xs =>
      match d_to_ulong (d_add (d_of_Z avg) (d_of_Z x)) with
      | Some avg => accumulate xs avg
      | None => None
      end
  end.

End Calibration.

(* ================================================================== *)
(** ** The arithmetic of the compiled code: IEEE 754 binary64 *)

Module Binary64.

Import Floats.

(** An integer converted to [double]: rounded to the nearest, ties to even. *)
Definition of_Z (z : Z) : float :=
  SF2Prim (binary_normalize prec emax z 0 false).

(** A [double] converted to [unsigned long]: the fraction is dropped; a
    value that is then not in [0, 2^64), an infinity or a NaN has no
    conversion. *)
Definition to_ulong (f : float) : option Z :=
  match Prim2SF f with
  | S754_zero _ => Some 0
  | S754_finite s m e =>
      let mag := if 0 <=? e then Z.pos m * 2 ^ e else Z.pos m / 2 ^ (- e) in
      if s then (if mag =? 0 then Some 0 else None)
      else if mag <? 2 ^ 64 then Some mag else None
  | S754_infinity _ => None
  | S754_nan => None
  end.

(** [fmax], [fmin]: a NaN argument is passed over for the other one. *)
Definition fmax (x y : float) : float :=
  if PrimFloat.is_nan x then y
  else if PrimFloat.is_nan y then x
  else if PrimFloat.ltb x y then y else x.

Definition fmin (x y : float) : float :=
  if PrimFloat.is_nan x then y
  else if PrimFloat.is_nan y then x
  else if PrimFloat.ltb y x then y else x.

#[global] Instance ops : DoubleOps float := {|
  d_of_Z := of_Z;
  d_to_ulong := to_ulong;
  d_add := PrimFloat.add;
  d_sub := PrimFloat.sub;
  d_mul := PrimFloat.mul;
  d_div := PrimFloat.div;
  d_sqrt := PrimFloat.sqrt;
  d_fmax := fmax;
  d_fmin := fmin;
  d_gt := fun x y => PrimFloat.ltb y x;
  d_nonzero := fun x => negb (PrimFloat.eqb x PrimFloat.zero)
|}.

End Binary64.

(* ================================================================== *)
(** ** The same program without rounding: real arithmetic *)

Module Exact.

Import Reals.
Local Open Scope R_scope.

Definition to_ulong (r : R) : option Z :=
  if Rle_dec 0 r then
    let z := Int_part r in
    if (z <? 2 ^ 64)%Z then Some z else None
  else if Rlt_dec (-1) r then Some 0%Z else None.

#[global] Instance ops : DoubleOps R := {|
  d_of_Z := IZR;
  d_to_ulong := to_ulong;
  d_add := Rplus;
  d_sub := Rminus;
  d_mul := Rmult;
  d_div := Rdiv;
  d_sqrt := sqrt;
  d_fmax := Rmax;
  d_fmin := Rmin;
  d_gt := fun x y => if Rgt_dec x y then true else false;
  d_nonzero := fun x => if Req_dec_T x 0 then false else true
|}.

(** Sum, sum of squares, and sum of squared deviations from [c]. *)
Definition total (xs : list Z) : R := IZR (list_sum xs).

Fixpoint total_sq (xs : list Z) : R :=
  match xs with
  | [] => 0
  | x :: xs => IZR x * IZR x + total_sq xs
  end.

Fixpoint sum_sq_dev (c : R) (xs : list Z) : R :=
  match xs with
  | [] => 0
  | x :: xs => (IZR x - c) * (IZR x - c) + sum_sq_dev c xs
  end.

(** The arithmetic mean and the sample standard deviation, as the textbooks
    define them. *)
Definition mean_of (xs : list Z) : R := total xs / INR (List.length xs).

Definition sample_sd (xs : list Z) : R :=
  sqrt (sum_sq_dev (mean_of xs) xs / (INR (List.length xs) - 1)).

(** What the incremental rule maintains after the candidates [pre]: [mean]
    is their mean, and [Sq] their sum of squares less the square of their sum
    over their number (stated without the divisions). *)
Definition welford_inv (pre : list Z) (st : R * R) : Prop :=
  let k := INR (List.length pre) in
  k * fst st = total pre /\
  k * snd st = k * total_sq pre - total pre * total pre /\
  (pre = [] -> fst st = 0 /\ snd st = 0).

End Exact.

(* ================================================================== *)
(** ** The specification's wording *)

(** The candidate as the specification words it: elapsed cycles over elapsed
    microseconds. *)
Definition cycles_over_usecs (c_s c_e : Z) (s e : timeval) : Z :=
  to_ulong (c_e - c_s) / utime_since s e.

(** The standard deviation as the specification words it: the accumulated
    squared deviation over the number of samples, 10. *)
Definition population_style_sd {D : Type} {ops : DoubleOps D} (xs : list Z) : D :=
  d_sqrt (d_div (snd (welford 0 xs (d_of_Z 0, d_of_Z 0))) (d_of_Z 10)).

(** The arithmetic mean of the retained candidates, as the specification
    words the final constant. *)
Definition mean_of_retained (kept : list Z) : Z :=
  list_sum kept / Z.of_nat (List.length kept).

(* ================================================================== *)
(** ** Machines to run on *)

(** The machine with other tapes. *)
Definition with_tapes (m : machine) (gt : list (option timeval)) (ct : list Z) : machine :=
  mk_machine (glob m)
    (mk_world gt (cgettime_tape (env m)) ct (err_log (env m))).

(** The machine after [cycles_per_usec = v]. *)
Definition with_cycles_per_usec (m : machine) (v : Z) : machine :=
  let g := glob m in
  mk_machine
    (mk_globals v (last_cycles g) (last_tv g) (last_tv_valid g)
       (fio_clock_source g) (fio_tv g))
    (env m).

(** Every round reads the wall clock twice, 10 microseconds apart, and the
    cycle counter at 0 and then at the candidate. *)
Definition machine_of_candidates (cs : list Z) : machine :=
  mk_machine
    (mk_globals 0 0 (mk_timeval 0 0) 0 CS_CPUCLOCK None)
    (mk_world
       (flat_map (fun _ => [Some (mk_timeval 0 0); Some (mk_timeval 0 10)]) cs)
       []
       (flat_map (fun c => [0; c]) cs)
       []).

(** The same machine once every reading is used up. *)
Definition idle_machine : machine :=
  mk_machine (mk_globals 0 0 (mk_timeval 0 0) 0 CS_CPUCLOCK None)
    (mk_world [] [] [] []).

(** Some contents for the uninitialised [cycles[10]]. *)
Definition junk_array : list Z := repeat 0 10.

(** Ten candidates, five at 27720 cycles and five at 32760, around a first
    round of 30240 that the loop overwrites. *)
Definition spread_candidates : list Z :=
  [27720; 32760; 27720; 32760; 27720; 32760; 27720; 32760; 27720; 32760].

(* ================================================================== *)
(** ** Tactics *)

(** Runs the monad's plumbing. *)
Ltac run_m := unfold bind, ret, get_globals, set_globals; cbn [glob env].

(** Closes a goal [l ++ [x] = [] -> _]. *)
Ltac snoc_not_nil :=
  let H := fresh in
  intros H; apply (f_equal (@List.length Z)) in H;
  rewrite ?length_app in H; cbn in H; lia.

(* ================================================================== *)
(** ** Elapsed time up to now *)

(** [unsigned long long utime_since_now(struct timeval *s)]; [junk] is what
    the local [t] holds before [fio_gettime] fills it. *)
Definition utime_since_now (s junk : timeval) : M Z :=
  t <- fio_gettime junk ;;
  ret (utime_since s t).

(** [unsigned long mtime_since_now(struct timeval *s)] *)
Definition mtime_since_now (s junk : timeval) : M Z :=
  t <- fio_gettime junk ;;
  ret (mtime_since s t).

(** [unsigned long time_since_now(struct timeval *s)] *)
Definition time_since_now (s junk : timeval) : M Z :=
  ms <- mtime_since_now s junk ;;
  ret (ms / 1000).

(* ================================================================== *)
(** ** Vocabulary of the further properties *)

(** The microseconds from [s] to [e], as an integer. *)
Definition elapsed_usec (s e : timeval) : Z :=
  (tv_sec e - tv_sec s) * 1000000 + (tv_usec e - tv_usec s).

(** Time samples as the clock sources give them: microseconds below a
    million, and seconds that leave the microsecond count of any difference
    within 64 bits. *)
Definition tv_sane (tv : timeval) : Prop :=
  0 <= tv_sec tv < 18446744073709 /\ 0 <= tv_usec tv < 1000000.

(** [a] is not of a later second than [b]. *)
Definition sec_le (a b : timeval) : Prop := tv_sec a <= tv_sec b.

(** The machine after a call with [fio_tv] null that returned [tv]. *)
Definition after_call (g : globals) (lc : Z) (tv : timeval) : globals :=
  mk_globals (cycles_per_usec g) lc tv 1 (fio_clock_source g) (fio_tv g).

(** The cycle counts the CPU clock source works with: every reading raised
    to the largest seen so far. *)
Fixpoint running_max (last : Z) (cs : list Z) : list Z :=
  match cs with
  | [] => []
  | c :: cs => let t := Z.max c last in t :: running_max t cs
  end.


(* ================================================================== *)
(** ** Call accounting ([FIO_DEBUG_TIME]) *)

(** Built with [FIO_DEBUG_TIME], [fio_gettime] counts its calls per call
    site in a hash table of chained records. The chains are the intrusive
    circular lists of [flist.h] and the hash function is [hash_ptr] of
    [hash.h]; neither header is among the sources. [hash_ptr] is left as a
    parameter. A chain is modelled as the list of its records from the
    first to the last, and a pointer to a record as its place in the table.
    Of the list macros this much is taken: [INIT_FLIST_HEAD] makes a head an
    empty chain, [flist_add_tail] links a record after the last one, and
    [flist_for_each] visits the records from the first to the last; on a
    head that is still zeroed its first step dereferences [NULL]. *)

Module DebugTime.

Definition HASH_BITS : Z := 8.

Definition HASH_SIZE : Z := Z.shiftl 1 HASH_BITS.

(** [struct gtod_log], less its list linkage. *)
Record gtod_log : Type := mk_gtod_log { caller : Z; calls : Z }.

(** One [struct flist_head] of [hash[]]: [None] while it is still the
    zeroed static storage ([next == NULL]), [Some logs] once
    [INIT_FLIST_HEAD] has run, with the records linked to it in order. *)
Abbreviation head := (option (list gtod_log)).

(** A [struct gtod_log *] into the table: the chain and the place in it. *)
Definition log_ptr : Type := (nat * nat)%type.

(** The static variables of the accounting, and what [malloc] will answer
    to the calls to come ([true]: memory, [false]: [NULL]; nothing is left
    once the list is used up). *)
Record table : Type := mk_table {
  hash : list head;
  gtod_inited : Z;
  malloc_tape : list bool
}.

(** A call either returns, or dereferences [NULL] or indexes past
    [hash[]]. *)
Inductive run (A : Type) : Type :=
| Ok (a : A) (t : table)
| Crash.

Arguments Ok {A} a t.
Arguments Crash {A}.

(** Assignment through a pointer into a list. *)
Fixpoint store {A : Type} (l : list A) (i : nat) (v : A) : list A :=
  match l, i with
  | [], _ => []
  | _ :: tl, O => v :: tl
  | x :: tl, S i => x :: store tl i v
  end.

(** [hash[h]]. *)
Definition head_at (h : Z) (t : table) : option head :=
  if (0 <=? h) && (h <? HASH_SIZE) then nth_error (hash t) (Z.to_nat h)
  else None.

(** The loop of [find_hash]: the first record of the chain whose [caller]
    is the one looked for. *)
Fixpoint find_pos (c : Z) (logs : list gtod_log) : option nat :=
  match logs with
  | [] => None
  | log :: rest =>
      if caller log =? c then Some 0%nat
      else option_map S (find_pos c rest)
  end.

Section Accounting.

(** [hash_ptr] of [hash.h]. *)
Variable hash_ptr : Z -> Z -> Z.

Definition find_hash (c : Z) (t : table) : run (option log_ptr) :=
  let h := hash_ptr c HASH_BITS in
  match head_at h t with
  | Some (Some logs) =>
      Ok (option_map (fun i => (Z.to_nat h, i)) (find_pos c logs)) t
  | _ => Crash
  end.

(** [find_log]: the record of [caller], made and linked at the tail of its
    chain with [calls = 0] when there is none. The result of [malloc] is
    not checked: [INIT_FLIST_HEAD(&log->list)] writes through it. *)
Definition find_log (c : Z) (t : table) : run log_ptr :=
  match find_hash c t with
  | Crash => Crash
  | Ok (Some p) t1 => Ok p t1
  | Ok None t1 =>
      match malloc_tape t1 with
      | true :: tape =>
          let h := hash_ptr c HASH_BITS in
          match head_at h t1 with
          | Some (Some logs) =>
              Ok (Z.to_nat h, List.length logs)
                 (mk_table
                    (store (hash t1) (Z.to_nat h)
                       (Some (logs ++ [mk_gtod_log c 0])))
                    (gtod_inited t1) tape)
          | _ => Crash
          end
      | _ => Crash
      end
  end.

(** [log->calls++] *)
Definition bump (p : log_ptr) (t : table) : run unit :=
  match nth_error (hash t) (fst p) with
  | Some (Some logs) =>
      match nth_error logs (snd p) with
      | Some log =>
          Ok tt
             (mk_table
                (store (hash t) (fst p)
                   (Some (store logs (snd p)
                            (mk_gtod_log (caller log)
                               (Int.to_ulong (calls log + 1))))))
                (gtod_inited t) (malloc_tape t))
      | None => Crash
      end
  | _ => Crash
  end.

Definition gtod_log_caller (c : Z) (t : table) : run unit :=
  if gtod_inited t =? 0 then Ok tt t
  else
    match find_log c t with
    | Ok p t1 => bump p t1
    | Crash => Crash
    end.

(** The calls [fio_gettime] makes of it, one per call site in [cs]. *)
Fixpoint log_callers (cs : list Z) (t : table) : run unit :=
  match cs with
  | [] => Ok tt t
  | c :: rest =>
      match gtod_log_caller c t with
      | Ok _ t1 => log_callers rest t1
      | Crash => Crash
      end
  end.

End Accounting.

(** The inner loop of [fio_dump_gtod]: one line per record, and the
    running total, an [unsigned long]. *)
Fixpoint dump_chain (logs : list gtod_log) (out : list (Z * Z)) (total : Z)
  : list (Z * Z) * Z :=
  match logs with
  | [] => (out, total)
  | log :: rest =>
      dump_chain rest (out ++ [(caller log, calls log)])
        (Int.to_ulong (total + calls log))
  end.

(** Its outer loop, over the heads of [hash[]]. *)
Fixpoint dump_heads (heads : list head) (out : list (Z * Z)) (total : Z)
  : option (list (Z * Z) * Z) :=
  match heads with
  | [] => Some (out, total)
  | None :: _ => None
  | Some logs :: rest =>
      let '(out, total) := dump_chain logs out total in
      dump_heads rest out total
  end.

(** [fio_dump_gtod]: the lines printed, as pairs of a call site and its
    count, and the total of the last line. *)
Definition fio_dump_gtod (t : table) : run (list (Z * Z) * Z) :=
  match dump_heads (hash t) [] 0 with
  | Some r => Ok r t
  | None => Crash
  end.

(** [gtod_init]: every head of [hash[HASH_SIZE]] becomes an empty chain. *)
Definition gtod_init (t : table) : table :=
  mk_table (repeat (Some []) (Z.to_nat HASH_SIZE)) 1 (malloc_tape t).

(** The records of the table, chain after chain. *)
Definition entries (heads : list head) : list gtod_log :=
  flat_map (fun h => match h with Some logs => logs | None => [] end) heads.

(** A record as [fio_dump_gtod] prints it. *)
Definition line (log : gtod_log) : Z * Z := (caller log, calls log).

(** The static storage when the program starts: zeroed. *)
Definition at_start (tape : list bool) : table :=
  mk_table (repeat None (Z.to_nat HASH_SIZE)) 0 tape.

(** A hash function for the examples: the low bits. *)
Definition low_bits (p bits : Z) : Z := p mod 2 ^ bits.

Section TableState.

Variable hash_ptr : Z -> Z -> Z.

(** Every record is in the chain of its call site's hash value. *)
Definition placed (hs : list head) : Prop :=
  forall i logs log,
    nth_error hs i = Some (Some logs) -> In log logs ->
    hash_ptr (caller log) HASH_BITS = Z.of_nat i.

(** The state of the table between calls, once [gtod_init] has run. *)
Definition table_ok (t : table) : Prop :=
  gtod_inited t <> 0 /\
  List.length (hash t) = Z.to_nat HASH_SIZE /\
  Forall (fun h => h <> None) (hash t) /\
  placed (hash t) /\
  NoDup (map caller (entries (hash t))).

End TableState.

(** The lines [v] of the dump account for the calls [cs]: one line per call
    site, carrying the number of its calls, and the counts add up to the
    number of calls (all of it in [unsigned long]). *)
Definition tallied (cs : list Z) (v : list (Z * Z)) : Prop :=
  NoDup (map fst v) /\
  (forall c n,
     In (c, n) v <->
     In c cs /\ n = Int.to_ulong (Z.of_nat (count_occ Z.eq_dec cs c))) /\
  Int.to_ulong (list_sum (map snd v)) = Int.to_ulong (Z.of_nat (List.length cs)).

End DebugTime.

(* ################################################################## *)
(** * Part II: properties *)

(* ================================================================== *)
(** ** Machine integers *)

Lemma to_ulong_range z : ulong_range (to_ulong z).
Proof. unfold ulong_range, to_ulong. apply Z.mod_pos_bound. lia. Qed.

Lemma to_long_range z : long_range (to_long z).
Proof.
  unfold long_range, to_long.
  pose proof (Z.mod_pos_bound (z + 2^63) (2^64) ltac:(lia)). lia.
Qed.

Lemma to_ulong_id z : ulong_range z -> to_ulong z = z.
Proof. unfold ulong_range, to_ulong. intros H. now apply Z.mod_small. Qed.

Lemma to_long_id z : long_range z -> to_long z = z.
Proof.
  unfold long_range, to_long. intros H.
  rewrite Z.mod_small; lia.
Qed.

(* ================================================================== *)
(** ** Elapsed time is never negative *)

(** No borrow happens unless the second delta is positive. *)
Lemma borrow_nonpos sec usec : sec <= 0 -> borrow sec usec = (sec, usec).
Proof.
  intros H. unfold borrow.
  destruct (Z.ltb_spec 0 sec); [lia | reflexivity].
Qed.

Lemma time_warp_true sec usec :
  time_warp sec usec = true <-> sec < 0 \/ (sec = 0 /\ usec < 0).
Proof. unfold time_warp. lia. Qed.

Lemma utime_since_warp s e :
  delta_sec s e < 0 \/ (delta_sec s e = 0 /\ delta_usec s e < 0) ->
  utime_since s e = 0.
Proof.
  unfold utime_since. intros H.
  rewrite borrow_nonpos by lia.
  apply time_warp_true in H. now rewrite H.
Qed.

Lemma mtime_since_warp s e :
  delta_sec s e < 0 \/ (delta_sec s e = 0 /\ delta_usec s e < 0) ->
  mtime_since s e = 0.
Proof.
  unfold mtime_since. intros H.
  rewrite borrow_nonpos by lia.
  apply time_warp_true in H. now rewrite H.
Qed.

Lemma utime_since_range s e : ulong_range (utime_since s e).
Proof.
  unfold utime_since.
  destruct (borrow _ _) as [sec usec].
  destruct (time_warp sec usec).
  - unfold ulong_range. lia.
  - apply to_ulong_range.
Qed.

Lemma mtime_since_range s e : ulong_range (mtime_since s e).
Proof.
  unfold mtime_since.
  destruct (borrow _ _) as [sec usec].
  destruct (time_warp sec usec).
  - unfold ulong_range. lia.
  - apply to_ulong_range.
Qed.

(** C2. For every pair of time samples [(s, e)], [utime_since s e] and
    [mtime_since s e] are non-negative; both are zero whenever the second
    delta the code computes is negative, or is zero with a negative
    microsecond delta; in particular both are zero when [e] is before [s]
    (and the field differences are representable). *)
Theorem elapsed_nonneg (s e : timeval) :
  (0 <= utime_since s e /\ 0 <= mtime_since s e) /\
  (delta_sec s e < 0 \/ (delta_sec s e = 0 /\ delta_usec s e < 0) ->
   utime_since s e = 0 /\ mtime_since s e = 0) /\
  (deltas_fit s e -> tv_lt e s ->
   utime_since s e = 0 /\ mtime_since s e = 0).
Proof.
  split; [|split].
  - pose proof (utime_since_range s e) as Hu.
    pose proof (mtime_since_range s e) as Hm.
    unfold ulong_range in *. lia.
  - intros H. split.
    + now apply utime_since_warp.
    + now apply mtime_since_warp.
  - intros [Hs Hu] Hlt.
    assert (Hd : delta_sec s e < 0 \/ (delta_sec s e = 0 /\ delta_usec s e < 0)).
    { unfold delta_sec, delta_usec.
      rewrite !to_long_id by assumption.
      unfold tv_lt in Hlt. lia. }
    split.
    + now apply utime_since_warp.
    + now apply mtime_since_warp.
Qed.

Lemma elapsed_nonneg_witness :
  let s := mk_timeval 100 500000 in
  let e := mk_timeval 100 499999 in
  (0 <= utime_since s e /\ 0 <= mtime_since s e) /\
  utime_since s e = 0 /\ mtime_since s e = 0.
Proof.
  intros s e.
  destruct (elapsed_nonneg s e) as [Hnn [Hwarp Hbefore]].
  split; [exact Hnn|].
  apply Hbefore.
  - unfold deltas_fit, long_range; cbn; lia.
  - right; cbn; lia.
Defined.

(* ================================================================== *)
(** ** Milliseconds against microseconds *)

(** After the borrow, normalised samples that are not warped give a second
    count [sec >= 0] and a microsecond count in [0, 1000000), with the same
    total as the two deltas. *)
Lemma borrow_normalised s e sec usec :
  usec_ok s -> usec_ok e ->
  borrow (delta_sec s e) (delta_usec s e) = (sec, usec) ->
  time_warp sec usec = false ->
  0 <= sec /\ 0 <= usec < 1000000 /\
  sec * 1000000 + usec = delta_sec s e * 1000000 + delta_usec s e.
Proof.
  unfold usec_ok, borrow. intros Hs He Hb Hw.
  assert (Hdu : delta_usec s e = tv_usec e - tv_usec s).
  { unfold delta_usec. apply to_long_id. unfold long_range. lia. }
  pose proof (to_long_range (tv_sec e - tv_sec s)) as Hr.
  fold (delta_sec s e) in Hr. unfold long_range in Hr.
  rewrite Hdu in *.
  destruct (Z.ltb_spec 0 (delta_sec s e)) as [Hp|Hp];
    destruct (Z.ltb_spec (tv_usec e - tv_usec s) 0) as [Hn|Hn];
    cbn [andb] in Hb.
  - rewrite !to_long_id in Hb by (unfold long_range; lia).
    injection Hb as <- <-. lia.
  - injection Hb as <- <-.
    assert (time_warp (delta_sec s e) (tv_usec e - tv_usec s) = true -> False)
      by (rewrite Hw; discriminate).
    lia.
  - injection Hb as <- <-.
    assert (~ (delta_sec s e < 0 \/ (delta_sec s e = 0 /\ tv_usec e - tv_usec s < 0)))
      by (rewrite <- time_warp_true, Hw; discriminate).
    lia.
  - injection Hb as <- <-.
    assert (~ (delta_sec s e < 0 \/ (delta_sec s e = 0 /\ tv_usec e - tv_usec s < 0)))
      by (rewrite <- time_warp_true, Hw; discriminate).
    lia.
Qed.

(** C9, as stated, fails once the microsecond count leaves 64 bits: a second
    delta of 2 * 10^13 makes [utime_since] wrap around while [mtime_since]
    does not. *)
Lemma mtime_not_utime_div_1000 :
  let s := mk_timeval 0 0 in
  let e := mk_timeval 20000000000000 0 in
  usec_ok s /\ usec_ok e /\
  utime_since s e = 1553255926290448384 /\
  mtime_since s e = 20000000000000000 /\
  mtime_since s e <> utime_since s e / 1000.
Proof.
  intros s e. unfold usec_ok.
  split; [cbn; lia|]. split; [cbn; lia|].
  assert (Hu : utime_since s e = 1553255926290448384) by (vm_compute; reflexivity).
  assert (Hm : mtime_since s e = 20000000000000000) by (vm_compute; reflexivity).
  split; [exact Hu|]. split; [exact Hm|].
  rewrite Hu, Hm. intros H. vm_compute in H. discriminate H.
Qed.

(** C9 (amended). For every pair of time samples with microsecond fields in
    [0, 1000000) whose elapsed microsecond count fits 64 bits,
    [mtime_since s e] is [utime_since s e / 1000]. *)
Theorem mtime_coarsens_utime (s e : timeval) :
  usec_ok s -> usec_ok e ->
  delta_sec s e * 1000000 + delta_usec s e < 2^64 ->
  mtime_since s e = utime_since s e / 1000.
Proof.
  intros Hs He Hfit.
  unfold mtime_since, utime_since.
  destruct (borrow (delta_sec s e) (delta_usec s e)) as [sec usec] eqn:Hb.
  destruct (time_warp sec usec) eqn:Hw; [reflexivity|].
  destruct (borrow_normalised s e sec usec Hs He Hb Hw) as (Hsec & Husec & Htot).
  assert (Hdiv : 0 <= usec / 1000 < 1000)
    by (split; [apply Z.div_pos; lia | apply Z.div_lt_upper_bound; lia]).
  rewrite (to_ulong_id sec) by (unfold ulong_range; lia).
  rewrite (to_ulong_id usec) by (unfold ulong_range; lia).
  rewrite (to_ulong_id (sec * 1000000)) by (unfold ulong_range; lia).
  rewrite (to_ulong_id (sec * 1000000 + usec)) by (unfold ulong_range; lia).
  rewrite (to_ulong_id (sec * 1000)) by (unfold ulong_range; lia).
  rewrite (to_long_id (sec * 1000)) by (unfold long_range; lia).
  rewrite (to_long_id (usec / 1000)) by (unfold long_range; lia).
  rewrite (to_long_id (sec * 1000 + usec / 1000)) by (unfold long_range; lia).
  rewrite to_ulong_id by (unfold ulong_range; lia).
  replace (sec * 1000000 + usec) with (sec * 1000 * 1000 + usec) by lia.
  now rewrite Z.div_add_l by lia.
Qed.

Lemma mtime_coarsens_utime_witness :
  mtime_since (mk_timeval 10 900000) (mk_timeval 12 100500)
  = utime_since (mk_timeval 10 900000) (mk_timeval 12 100500) / 1000.
Proof.
  apply mtime_coarsens_utime.
  - unfold usec_ok; cbn; lia.
  - unfold usec_ok; cbn; lia.
  - vm_compute; reflexivity.
Defined.

(* ================================================================== *)
(** ** The fixed time [fio_tv] *)

(** C10. Whenever [fio_tv] is non-null, every call of [fio_gettime] returns
    the time sample it points at and nothing else happens: the fix-up is not
    applied, and [last_tv], [last_tv_valid] and the rest of the process are
    as before the call. *)
Theorem fio_tv_returned_untouched (m : machine) (fixed : timeval) :
  fio_tv (glob m) = Some fixed ->
  (forall tp, fio_gettime tp m = Done fixed m) /\
  (forall tps, fio_gettime_seq tps m = Done (repeat fixed (List.length tps)) m).
Proof.
  intros Hfix.
  assert (Hone : forall tp, fio_gettime tp m = Done fixed m).
  { intros tp. unfold fio_gettime. run_m. now rewrite Hfix. }
  split; [exact Hone|].
  induction tps as [|tp tps IH]; [reflexivity|].
  cbn [fio_gettime_seq List.length repeat]. unfold bind at 1.
  rewrite Hone. unfold bind at 1. now rewrite IH.
Qed.

Lemma fio_tv_returned_untouched_witness :
  let m := mk_machine
             (mk_globals 3000 0 (mk_timeval 50 0) 1 CS_GTOD (Some (mk_timeval 7 250)))
             (mk_world [Some (mk_timeval 60 0)] [] [] []) in
  fio_gettime (mk_timeval 0 0) m = Done (mk_timeval 7 250) m /\
  tv_lt (mk_timeval 7 250) (last_tv (glob m)).
Proof.
  intros m. split.
  - apply (fio_tv_returned_untouched m (mk_timeval 7 250)). reflexivity.
  - left. cbn. lia.
Defined.

(* ================================================================== *)
(** ** The fix-up and the order of the samples returned *)

(** What the fix-up achieves: the seconds returned never fall below those of
    the last sample returned. *)
Lemma fixup_sec_monotone g tp :
  last_tv_valid g <> 0 -> tv_sec (last_tv g) <= tv_sec (fixup g tp).
Proof.
  intros Hv. unfold fixup.
  destruct (Z.eqb_spec (last_tv_valid g) 0) as [|_]; [contradiction|].
  destruct (Z.ltb_spec (tv_sec tp) (tv_sec (last_tv g))); cbn [tv_sec]; [lia|].
  destruct (_ && _); cbn [tv_sec]; lia.
Qed.

(** What it misses: a candidate whose seconds and microseconds are both below
    the last sample's is moved to the last sample's second and keeps its own
    microseconds. *)
Lemma fixup_monotone_iff g tp :
  last_tv_valid g <> 0 ->
  tv_le (last_tv g) (fixup g tp) <->
  ~ (tv_sec tp < tv_sec (last_tv g) /\ tv_usec tp < tv_usec (last_tv g)).
Proof.
  intros Hv. unfold fixup, tv_le, tv_lt.
  destruct (Z.eqb_spec (last_tv_valid g) 0) as [|_]; [contradiction|].
  destruct (Z.ltb_spec (tv_sec tp) (tv_sec (last_tv g))); cbn [tv_sec tv_usec].
  - lia.
  - destruct (Z.eqb_spec (tv_sec (last_tv g)) (tv_sec tp));
      destruct (Z.ltb_spec (tv_usec tp) (tv_usec (last_tv g)));
      cbn [andb tv_sec tv_usec]; lia.
Qed.

(** C1, at the failing input: the wall clock reads 5.500000 s and then
    4.000100 s; the second call returns 5.000100 s, before the 5.500000 s the
    first call returned. *)
Theorem fio_gettime_goes_backwards :
  let m0 := mk_machine
              (mk_globals 0 0 (mk_timeval 0 0) 0 CS_GTOD None)
              (mk_world [Some (mk_timeval 5 500000); Some (mk_timeval 4 100)]
                 [] [] []) in
  let buf := mk_timeval 0 0 in
  exists m',
    fio_gettime_seq [buf; buf] m0
    = Done [mk_timeval 5 500000; mk_timeval 5 100] m' /\
    last_tv (glob m') = mk_timeval 5 100 /\
    tv_lt (mk_timeval 5 100) (mk_timeval 5 500000).
Proof.
  intros m0 buf. eexists. split; [|split].
  - vm_compute. reflexivity.
  - reflexivity.
  - right. cbn. lia.
Qed.

(* ================================================================== *)
(** ** Failing syscalls *)

(** The [CS_CGETTIME] source: a failed [clock_gettime] is logged and the
    process aborted. *)
Lemma clock_gettime_failure_aborts (m : machine) (tp : timeval) rest :
  fio_tv (glob m) = None ->
  fio_clock_source (glob m) = CS_CGETTIME ->
  cgettime_tape (env m) = None :: rest ->
  exists m',
    fio_gettime tp m = Aborted m' /\
    err_log (env m') = err_log (env m) ++ [LogErr "fio: clock_gettime fails"] /\
    glob m' = glob m.
Proof.
  intros Hfix Hcs Htape. eexists.
  unfold fio_gettime, read_clock_source, clock_gettime, log_err, assert_fail.
  run_m. rewrite Hfix. run_m. rewrite Hcs. run_m. rewrite Htape.
  cbn. repeat split; reflexivity.
Qed.

(** The [CS_GTOD] source: the value [gettimeofday] returns is dropped, so a
    failed call leaves the caller's buffer to go through the fix-up and be
    returned; nothing is logged. *)
Lemma gettimeofday_failure_returns (m : machine) (tp : timeval) rest :
  fio_tv (glob m) = None ->
  fio_clock_source (glob m) = CS_GTOD ->
  gtod_tape (env m) = None :: rest ->
  exists m',
    fio_gettime tp m = Done (fixup (glob m) tp) m' /\
    err_log (env m') = err_log (env m) /\
    last_tv (glob m') = fixup (glob m) tp.
Proof.
  intros Hfix Hcs Htape. eexists.
  unfold fio_gettime, read_clock_source, gettimeofday.
  run_m. rewrite Hfix. run_m. rewrite Hcs, Htape.
  cbn. repeat split; reflexivity.
Qed.

(** C7, at the failing input: with the [CS_GTOD] source a failed
    [gettimeofday] goes unnoticed; [fio_gettime] returns the buffer it was
    given (fixed up against [last_tv]) and logs nothing. *)
Theorem gettimeofday_failure_unnoticed :
  let m0 := mk_machine
              (mk_globals 0 0 (mk_timeval 9 0) 1 CS_GTOD None)
              (mk_world [None] [] [] []) in
  let buf := mk_timeval 3 141592 in
  exists m',
    fio_gettime buf m0 = Done (mk_timeval 9 141592) m' /\
    err_log (env m') = [] /\
    forall m'', fio_gettime buf m0 <> Aborted m''.
Proof.
  intros m0 buf. eexists. split; [|split].
  - vm_compute. reflexivity.
  - reflexivity.
  - intros m'' H. vm_compute in H. discriminate H.
Qed.

(* ================================================================== *)
(** ** The CPU cycle counter source *)

Lemma cycles_to_timeval_exact t cpu :
  ulong_range t -> 0 < cpu ->
  cycles_to_timeval t cpu
  = mk_timeval (t / cpu / 1000000) ((t / cpu) mod 1000000).
Proof.
  unfold ulong_range, cycles_to_timeval. intros Ht Hcpu.
  assert (Hq : 0 <= t / cpu <= t).
  { split; [apply Z.div_pos; lia|].
    apply Z.div_le_upper_bound; nia. }
  assert (Hs : 0 <= t / cpu / 1000000 < 2^63).
  { split; [apply Z.div_pos; lia|].
    apply Z.div_lt_upper_bound; lia. }
  pose proof (Z.mod_pos_bound (t / cpu) 1000000 ltac:(lia)) as Hm.
  cbv zeta.
  rewrite !to_long_id by (unfold long_range; lia).
  reflexivity.
Qed.

(** Before any calibration [cycles_per_usec] is 0, and the conversion divides
    by it. *)
Lemma cpuclock_uncalibrated (m : machine) (tp : timeval) (c : Z) (rest : list Z) :
  fio_tv (glob m) = None ->
  fio_clock_source (glob m) = CS_CPUCLOCK ->
  cpu_tape (env m) = c :: rest ->
  cycles_per_usec (glob m) = 0 ->
  exists m', fio_gettime tp m = Fault m'.
Proof.
  intros Hfix Hcs Htape Hzero. eexists.
  unfold fio_gettime, read_clock_source, get_cpu_clock, undefined.
  run_m. rewrite Hfix. run_m. rewrite Hcs, Htape. cbn [glob env].
  rewrite Hzero. reflexivity.
Qed.

(** One call never lowers [last_cycles], whatever the source. *)
Lemma fio_gettime_last_cycles tp m tv m' :
  fio_gettime tp m = Done tv m' ->
  last_cycles (glob m) <= last_cycles (glob m').
Proof.
  unfold fio_gettime, read_clock_source. run_m.
  destruct (fio_tv (glob m)) as [fixed|].
  - intros H. injection H as _ <-. lia.
  - run_m. destruct (fio_clock_source (glob m)).
    + unfold gettimeofday.
      destruct (gtod_tape (env m)); [discriminate|].
      cbn. intros H. injection H as _ <-. cbn. lia.
    + unfold clock_gettime.
      destruct (cgettime_tape (env m)) as [|[ts|] ?]; try discriminate.
      cbn. intros H. injection H as _ <-. cbn. lia.
    + unfold get_cpu_clock.
      destruct (cpu_tape (env m)) as [|c rest]; [discriminate|].
      cbn [glob env].
      destruct (cycles_per_usec (glob m) =? 0); [discriminate|].
      cbn. intros H. injection H as _ <-. cbn.
      destruct (Z.ltb_spec c (last_cycles (glob m))); lia.
    + unfold log_err. cbn. intros H. injection H as _ <-. cbn. lia.
Qed.

Lemma fio_gettime_seq_last_cycles tps :
  forall m tvs m',
    fio_gettime_seq tps m = Done tvs m' ->
    last_cycles (glob m) <= last_cycles (glob m').
Proof.
  induction tps as [|tp tps IH]; intros m tvs m'; cbn [fio_gettime_seq].
  - unfold ret. intros H. injection H as _ <-. lia.
  - unfold bind at 1.
    destruct (fio_gettime tp m) as [tv m1| | |] eqn:H1; try discriminate.
    unfold bind at 1.
    destruct (fio_gettime_seq tps m1) as [tvs1 m2| | |] eqn:H2; try discriminate.
    unfold ret. intros H. injection H as _ <-.
    apply fio_gettime_last_cycles in H1. apply IH in H2. lia.
Qed.

(** C3. With the CPU cycle counter as clock source, a call reads the counter,
    takes the larger of the reading and [last_cycles] (so a reading below
    [last_cycles] is replaced by it), stores that in [last_cycles], and turns
    it into a time sample by dividing by [cycles_per_usec]; that sample then
    goes through the fix-up. Across any calls [last_cycles] never
    decreases. *)
Theorem cpuclock_reading_clamped (m : machine) (tp : timeval) (c : Z) (rest : list Z) :
  fio_tv (glob m) = None ->
  fio_clock_source (glob m) = CS_CPUCLOCK ->
  cpu_tape (env m) = c :: rest ->
  0 < cycles_per_usec (glob m) ->
  ulong_range c -> ulong_range (last_cycles (glob m)) ->
  let t := Z.max c (last_cycles (glob m)) in
  let usecs := t / cycles_per_usec (glob m) in
  (exists m',
     fio_gettime tp m
     = Done (fixup (glob m) (mk_timeval (usecs / 1000000) (usecs mod 1000000))) m' /\
     last_cycles (glob m') = t /\
     (c < last_cycles (glob m) -> last_cycles (glob m') = last_cycles (glob m)) /\
     cpu_tape (env m') = rest) /\
  (forall tps m0 tvs m1,
     fio_gettime_seq tps m0 = Done tvs m1 ->
     last_cycles (glob m0) <= last_cycles (glob m1)).
Proof.
  intros Hfix Hcs Htape Hcpu Hc Hlast t usecs.
  split; [|intros tps m0 tvs m1; apply fio_gettime_seq_last_cycles].
  assert (Ht : (if c <? last_cycles (glob m) then last_cycles (glob m) else c) = t).
  { unfold t. destruct (Z.ltb_spec c (last_cycles (glob m))); lia. }
  assert (Hrange : ulong_range t) by (unfold t, ulong_range in *; lia).
  eexists.
  unfold fio_gettime, read_clock_source, get_cpu_clock. run_m.
  rewrite Hfix. run_m. rewrite Hcs, Htape. cbn [glob env].
  destruct (Z.eqb_spec (cycles_per_usec (glob m)) 0) as [H0|_]; [lia|].
  cbn [glob env]. rewrite Ht.
  rewrite (cycles_to_timeval_exact t _ Hrange Hcpu).
  fold usecs.
  repeat split; try reflexivity.
  cbn. unfold t. lia.
Qed.

Lemma cpuclock_reading_clamped_witness :
  let m := mk_machine
             (mk_globals 3000 9000000000 (mk_timeval 2 999000) 1 CS_CPUCLOCK None)
             (mk_world [] [] [8999999999; 9000003000] []) in
  exists m',
    fio_gettime (mk_timeval 0 0) m = Done (mk_timeval 3 0) m' /\
    last_cycles (glob m') = 9000000000.
Proof.
  intros m.
  destruct (cpuclock_reading_clamped m (mk_timeval 0 0) 8999999999 [9000003000])
    as [[m' (Hrun & Hlast & _ & _)] _].
  - reflexivity.
  - reflexivity.
  - reflexivity.
  - cbn; lia.
  - unfold ulong_range; lia.
  - unfold ulong_range; cbn; lia.
  - exists m'. split.
    + rewrite Hrun. reflexivity.
    + rewrite Hlast. reflexivity.
Defined.

(* ================================================================== *)
(** ** One sampling round *)

Lemma gettimeofday_some tp m tv gt :
  gtod_tape (env m) = Some tv :: gt ->
  gettimeofday tp m = Done tv (with_tapes m gt (cpu_tape (env m))).
Proof. intros H. unfold gettimeofday, with_tapes. now rewrite H. Qed.

Lemma get_cpu_clock_some m c ct :
  cpu_tape (env m) = c :: ct ->
  get_cpu_clock m = Done c (with_tapes m (gtod_tape (env m)) ct).
Proof. intros H. unfold get_cpu_clock, with_tapes. now rewrite H. Qed.

(** The loop skips the readings that come too early and stops at the first
    one that is 10 microseconds or more after [s]. *)
Lemma poll_wall_clock_stops s e rest :
  10 <= utime_since s e ->
  forall (early : list timeval) (fuel : nat) (e0 : timeval) (m : machine),
    Forall (fun p => utime_since s p < 10) early ->
    gtod_tape (env m) = map Some early ++ Some e :: rest ->
    (List.length early < fuel)%nat ->
    poll_wall_clock fuel s e0 m = Done e (with_tapes m rest (cpu_tape (env m))).
Proof.
  intros Hlate.
  induction early as [|p early IH]; intros fuel e0 m Hearly Htape Hfuel.
  - destruct fuel as [|fuel]; [cbn in Hfuel; lia|].
    cbn [map app] in Htape. cbn [poll_wall_clock]. unfold bind.
    rewrite (gettimeofday_some _ _ _ _ Htape).
    destruct (Z.leb_spec 10 (utime_since s e)); [reflexivity | lia].
  - destruct fuel as [|fuel]; [cbn in Hfuel; lia|].
    cbn [map app] in Htape. cbn [poll_wall_clock]. unfold bind.
    rewrite (gettimeofday_some _ _ _ _ Htape).
    inversion Hearly as [|? ? Hp Hrest]; subst.
    destruct (Z.leb_spec 10 (utime_since s p)); [lia|].
    rewrite (IH fuel p _ Hrest).
    + reflexivity.
    + reflexivity.
    + cbn in Hfuel. lia.
Qed.

(** C4, as stated, fails: a round of 12 microseconds and 36000 cycles gives
    the candidate 36000, not 36000 / 12. *)
Lemma candidate_is_not_a_ratio :
  let s := mk_timeval 100 0 in
  let e := mk_timeval 100 12 in
  let m := mk_machine
             (mk_globals 0 0 (mk_timeval 0 0) 0 CS_CPUCLOCK None)
             (mk_world [Some s; Some (mk_timeval 100 4); Some e] [] [1000; 37000] []) in
  exists m',
    get_cycles_per_usec (mk_timeval 0 0) m = Done 36000 m' /\
    utime_since s e = 12 /\
    cycles_over_usecs 1000 37000 s e = 3000 /\
    get_cycles_per_usec (mk_timeval 0 0) m
    <> Done (cycles_over_usecs 1000 37000 s e) m'.
Proof.
  intros s e m. eexists. split; [|split; [|split]].
  - vm_compute. reflexivity.
  - reflexivity.
  - reflexivity.
  - intros H. vm_compute in H. discriminate H.
Qed.

(** C4 (amended). The candidate one sampling round produces is the number of
    cycles elapsed between its two readings of the cycle counter (it is not
    divided by the microseconds elapsed); the round polls the wall clock,
    passing over every reading less than 10 microseconds after the first,
    and takes the second cycle reading at the first one that is 10
    microseconds or more after it. *)
Theorem candidate_is_elapsed_cycles
  (m : machine) (junk s e : timeval) (early : list timeval)
  (rest : list (option timeval)) (c_s c_e : Z) (crest : list Z) :
  gtod_tape (env m) = Some s :: map Some early ++ Some e :: rest ->
  cpu_tape (env m) = c_s :: c_e :: crest ->
  Forall (fun p => utime_since s p < 10) early ->
  10 <= utime_since s e ->
  get_cycles_per_usec junk m = Done (to_ulong (c_e - c_s)) (with_tapes m rest crest).
Proof.
  intros Hgt Hct Hearly Hlate.
  unfold get_cycles_per_usec. unfold bind at 1.
  rewrite (gettimeofday_some _ _ _ _ Hgt).
  unfold bind at 1.
  rewrite (get_cpu_clock_some _ c_s (c_e :: crest)) by (cbn; exact Hct).
  unfold bind at 1. unfold get_machine. unfold bind at 1.
  rewrite (poll_wall_clock_stops s e rest Hlate early); cbn [with_tapes env glob gtod_tape cpu_tape].
  - unfold bind, get_cpu_clock, ret, with_tapes. cbn. reflexivity.
  - exact Hearly.
  - reflexivity.
  - rewrite length_app, length_map. cbn. lia.
Qed.

Lemma candidate_is_elapsed_cycles_witness :
  let s := mk_timeval 100 0 in
  let e := mk_timeval 100 12 in
  let m := mk_machine
             (mk_globals 0 0 (mk_timeval 0 0) 0 CS_CPUCLOCK None)
             (mk_world [Some s; Some (mk_timeval 100 4); Some e] [] [1000; 37000] []) in
  get_cycles_per_usec (mk_timeval 0 0) m = Done 36000 (with_tapes m [] []).
Proof.
  intros s e m.
  apply (candidate_is_elapsed_cycles m (mk_timeval 0 0) s e [mk_timeval 100 4] [] 1000 37000 []).
  - reflexivity.
  - reflexivity.
  - repeat constructor.
  - vm_compute. discriminate.
Defined.

(* ================================================================== *)
(** ** The calibration in any arithmetic *)

Lemma bind_Done_inv {A B : Type} (c : M A) (k : A -> M B) m b m' :
  bind c k m = Done b m' ->
  exists a m1, c m = Done a m1 /\ k a m1 = Done b m'.
Proof.
  unfold bind. destruct (c m) as [a m1| | |]; try discriminate.
  intros H. now exists a, m1.
Qed.

(** A candidate is a value of [unsigned long]. *)
Lemma get_cycles_per_usec_range junk m c m' :
  get_cycles_per_usec junk m = Done c m' -> ulong_range c.
Proof.
  unfold get_cycles_per_usec. intros H.
  apply bind_Done_inv in H. destruct H as (s & m1 & _ & H).
  apply bind_Done_inv in H. destruct H as (c_s & m2 & _ & H).
  apply bind_Done_inv in H. destruct H as (m3 & m4 & _ & H).
  apply bind_Done_inv in H. destruct H as (e & m5 & _ & H).
  apply bind_Done_inv in H. destruct H as (c_e & m6 & _ & H).
  unfold ret in H. injection H as <- _. apply to_ulong_range.
Qed.

Lemma array_set_middle (pre : list Z) (o v : Z) (tl : list Z) :
  array_set (pre ++ o :: tl) (List.length pre) v = pre ++ v :: tl.
Proof.
  induction pre as [|p pre IH]; cbn [array_set app List.length].
  - reflexivity.
  - now rewrite IH.
Qed.

Lemma list_sum_nonneg xs : Forall ulong_range xs -> 0 <= list_sum xs.
Proof.
  induction 1 as [|x xs Hx _ IH]; cbn [list_sum fold_right]; [lia|].
  unfold list_sum, ulong_range in *. lia.
Qed.

Lemma list_sum_filter_le (f : Z -> bool) xs :
  Forall ulong_range xs -> list_sum (filter f xs) <= list_sum xs.
Proof.
  induction 1 as [|x xs Hx _ IH]; cbn [filter]; [lia|].
  unfold list_sum, ulong_range in *.
  destruct (f x); cbn [fold_right]; lia.
Qed.

Lemma Forall_filter_range (f : Z -> bool) xs :
  Forall ulong_range xs -> Forall ulong_range (filter f xs).
Proof.
  induction 1 as [|x xs Hx _ IH]; cbn [filter]; [constructor|].
  destruct (f x); [constructor|]; assumption.
Qed.

Section CalibrationFacts.

Context {D : Type} {ops : DoubleOps D}.
Variable junk : timeval.

Lemma sample_rounds_inv n m xs m' :
  sample_rounds junk (S n) m = Done xs m' ->
  exists c cs m1,
    get_cycles_per_usec junk m = Done c m1 /\
    sample_rounds junk n m1 = Done cs m' /\
    xs = c :: cs.
Proof.
  change (sample_rounds junk (S n))
    with (bind (get_cycles_per_usec junk)
            (fun c => bind (sample_rounds junk n) (fun cs => ret (c :: cs)))).
  unfold bind at 1.
  destruct (get_cycles_per_usec junk m) as [c m1| | |] eqn:Hc; try discriminate.
  unfold bind at 1.
  destruct (sample_rounds junk n m1) as [cs m2| | |] eqn:Hcs; try discriminate.
  unfold ret. intros H. injection H as <- <-.
  exists c, cs, m1. split; [reflexivity|]. split; [exact Hcs | reflexivity].
Qed.

Lemma sample_rounds_length n :
  forall m xs m', sample_rounds junk n m = Done xs m' -> List.length xs = n.
Proof.
  induction n as [|n IH]; intros m xs m' H.
  - cbn in H. unfold ret in H. injection H as <- _. reflexivity.
  - apply sample_rounds_inv in H. destruct H as (c & cs & m1 & _ & Hcs & ->).
    cbn. f_equal. eapply IH, Hcs.
Qed.

Lemma sample_rounds_range n :
  forall m xs m', sample_rounds junk n m = Done xs m' -> Forall ulong_range xs.
Proof.
  induction n as [|n IH]; intros m xs m' H.
  - cbn in H. unfold ret in H. injection H as <- _. constructor.
  - apply sample_rounds_inv in H. destruct H as (c & cs & m1 & Hc & Hcs & ->).
    constructor.
    + eapply get_cycles_per_usec_range, Hc.
    + eapply IH, Hcs.
Qed.

(** The first loop, turn by turn, writes the candidates of its rounds over
    the array cells [i .. i + n) and folds [welford_step] over them. *)
Lemma sample_loop_rounds n :
  forall (old xs pre post : list Z) (st : D * D) (m m' : machine),
    List.length old = n ->
    sample_rounds junk n m = Done xs m' ->
    sample_loop junk n (List.length pre) (pre ++ old ++ post) st m
    = Done (pre ++ xs ++ post, welford (List.length pre) xs st) m'.
Proof.
  induction n as [|n IH]; intros old xs pre post st m m' Hlen Hrounds.
  - destruct old; [|discriminate].
    cbn in Hrounds. unfold ret in Hrounds. injection Hrounds as <- <-.
    reflexivity.
  - destruct old as [|o old]; [discriminate|]. injection Hlen as Hlen.
    apply sample_rounds_inv in Hrounds.
    destruct Hrounds as (c & cs & m1 & Hc & Hcs & ->).
    cbn [sample_loop]. unfold bind at 1. rewrite Hc.
    cbn [app]. rewrite array_set_middle, nth_middle.
    replace (S (List.length pre)) with (List.length (pre ++ [c]))
      by (rewrite length_app; cbn; lia).
    replace (pre ++ c :: old ++ post) with ((pre ++ [c]) ++ old ++ post)
      by (now rewrite <- app_assoc).
    rewrite (IH old cs (pre ++ [c]) post _ m1 m' Hlen Hcs).
    rewrite <- app_assoc. cbn [app welford].
    rewrite length_app. cbn [List.length].
    replace (List.length pre + 1)%nat with (S (List.length pre)) by lia.
    reflexivity.
Qed.

(** The first half of the calibration, given the candidates of its eleven
    rounds: the first is overwritten, the other ten fill the array and go
    through the incremental rule; [S] is the square root of a ninth of what
    the rule accumulated. *)
Lemma calibration_stats_rounds (cycles0 : list Z) (m m' : machine) (c0 : Z) (xs : list Z) :
  List.length cycles0 = 10%nat ->
  sample_rounds junk 11 m = Done (c0 :: xs) m' ->
  calibration_stats junk cycles0 m
  = Done (xs,
          fst (welford 0 xs (d_of_Z 0, d_of_Z 0)),
          d_sqrt (d_div (snd (welford 0 xs (d_of_Z 0, d_of_Z 0)))
                    (d_sub (d_of_Z 10) (d_of_Z 1)))) m'.
Proof.
  intros Hlen Hrounds.
  apply sample_rounds_inv in Hrounds.
  destruct Hrounds as (c & cs & m1 & Hc & Hcs & Heq). injection Heq as <- <-.
  unfold calibration_stats. unfold bind at 1. rewrite Hc.
  destruct cycles0 as [|o tl]; [discriminate|]. cbn [array_set].
  assert (Hloop := sample_loop_rounds 10 (c0 :: tl) xs [] [] (d_of_Z 0, d_of_Z 0) m1 m').
  cbn [app List.length] in Hloop. rewrite !app_nil_r in Hloop.
  unfold bind. rewrite Hloop by (exact Hlen || exact Hcs).
  destruct (welford 0 xs (d_of_Z 0, d_of_Z 0)) as [mean Sq].
  reflexivity.
Qed.

(** The second loop adds up, in order, the candidates it retains, and counts
    them; the others leave [samples] and [avg] as they are. *)
Lemma average_loop_filter (mean Sq : D) (xs : list Z) :
  forall (pre post : list Z) (samples avg : Z),
    average_loop (List.length xs) (List.length pre) (pre ++ xs ++ post) mean Sq samples avg
    = match accumulate (filter (retained mean Sq) xs) avg with
      | Some total =>
          Some (samples + Z.of_nat (List.length (filter (retained mean Sq) xs)), total)
      | None => None
      end.
Proof.
  induction xs as [|x xs IH]; intros pre post samples avg;
    cbn [List.length average_loop filter accumulate app].
  - f_equal. f_equal. cbn. lia.
  - rewrite nth_middle.
    replace (S (List.length pre)) with (List.length (pre ++ [x]))
      by (rewrite length_app; cbn; lia).
    replace (pre ++ x :: xs ++ post) with ((pre ++ [x]) ++ xs ++ post)
      by (now rewrite <- app_assoc).
    destruct (retained mean Sq x); cbn [accumulate].
    + destruct (d_to_ulong (d_add (d_of_Z avg) (d_of_Z x))) as [avg'|]; [|reflexivity].
      rewrite IH.
      destruct (accumulate _ avg'); [|reflexivity].
      f_equal. f_equal. cbn [List.length]. lia.
    + apply IH.
Qed.

(** The whole calibration, given the candidates of its eleven rounds. *)
Lemma calibrate_cpu_clock_rounds (cycles0 : list Z) (m m' : machine) (c0 : Z) (xs : list Z) :
  List.length cycles0 = 10%nat ->
  sample_rounds junk 11 m = Done (c0 :: xs) m' ->
  let mean := fst (welford 0 xs (d_of_Z 0, d_of_Z 0)) in
  let sd := d_sqrt (d_div (snd (welford 0 xs (d_of_Z 0, d_of_Z 0)))
                      (d_sub (d_of_Z 10) (d_of_Z 1))) in
  let kept := filter (retained mean sd) xs in
  calibrate_cpu_clock junk cycles0 m
  = match accumulate kept 0 with
    | None => Fault m'
    | Some total =>
        if Z.of_nat (List.length kept) * 10 =? 0 then Fault m'
        else Done tt (with_cycles_per_usec m'
                        (total / (Z.of_nat (List.length kept) * 10)))
    end.
Proof.
  intros Hlen Hrounds mean sd kept.
  assert (Hxs : List.length xs = 10%nat).
  { apply sample_rounds_length in Hrounds. cbn in Hrounds. lia. }
  unfold calibrate_cpu_clock. unfold bind at 1.
  rewrite (calibration_stats_rounds cycles0 m m' c0 xs Hlen Hrounds).
  fold mean sd.
  assert (Hloop := average_loop_filter mean sd xs [] [] 0 0).
  cbn [app List.length] in Hloop. rewrite app_nil_r, Hxs in Hloop.
  rewrite Hloop. fold kept.
  destruct (accumulate kept 0) as [total|]; [|reflexivity].
  cbn [Z.add].
  destruct (Z.of_nat (List.length kept) * 10 =? 0); reflexivity.
Qed.

End CalibrationFacts.

Lemma length_filter_pos {A : Type} (f : A -> bool) (xs : list A) :
  filter f xs <> [] -> (Z.of_nat (List.length (filter f xs)) * 10 =? 0) = false.
Proof.
  intros Hne. destruct (filter f xs); [contradiction|].
  cbn [List.length]. apply Z.eqb_neq. lia.
Qed.

(* ================================================================== *)
(** ** The calibration without rounding *)

Module ExactFacts.

Import Reals Lra.
Import Exact.
Local Open Scope R_scope.

Lemma total_nil : total [] = 0.
Proof. reflexivity. Qed.

Lemma total_cons x xs : total (x :: xs) = IZR x + total xs.
Proof. unfold total, list_sum. cbn [fold_right]. now rewrite plus_IZR. Qed.

Lemma total_app xs ys : total (xs ++ ys) = total xs + total ys.
Proof.
  induction xs as [|x xs IH]; cbn [app].
  - unfold total at 2. cbn. lra.
  - rewrite !total_cons, IH. lra.
Qed.

Lemma total_sq_app xs ys : total_sq (xs ++ ys) = total_sq xs + total_sq ys.
Proof.
  induction xs as [|x xs IH]; cbn [app total_sq]; [lra | rewrite IH; lra].
Qed.

Lemma sum_sq_dev_expand c xs :
  sum_sq_dev c xs
  = total_sq xs - 2 * c * total xs + INR (List.length xs) * c * c.
Proof.
  induction xs as [|x xs IH].
  - unfold total. cbn. lra.
  - cbn [sum_sq_dev total_sq List.length]. rewrite total_cons, S_INR, IH. lra.
Qed.

Lemma sum_sq_dev_nonneg c xs : 0 <= sum_sq_dev c xs.
Proof.
  induction xs as [|x xs IH]; cbn [sum_sq_dev]; [lra|].
  pose proof (Rle_0_sqr (IZR x - c)) as H. unfold Rsqr in H. lra.
Qed.

Lemma welford_step_inv pre x st :
  welford_inv pre st ->
  welford_inv (pre ++ [x]) (welford_step (List.length pre) x st).
Proof.
  destruct st as [mean Sq]. unfold welford_inv, welford_step.
  cbn [fst snd d_sub d_of_Z d_nonzero d_add d_div d_mul ops].
  rewrite length_app, total_app, total_sq_app. cbn [List.length total_sq].
  rewrite (total_cons x []), total_nil.
  rewrite <- INR_IZR_INZ.
  replace (List.length pre + 1)%nat with (S (List.length pre)) by lia.
  rewrite S_INR.
  set (k := INR (List.length pre)).
  intros (Hmean & Hsq & Hnil).
  destruct pre as [|p pre].
  - (* the first candidate *)
    destruct (Hnil eq_refl) as [-> ->]. subst k. cbn [List.length INR total_sq] in *.
    rewrite total_nil in *.
    rewrite Rminus_0_r.
    destruct (Req_dec_T (IZR x) 0) as [Hx|Hx]; cbn [fst snd].
    + rewrite Hx. split; [lra|]. split; [lra | snoc_not_nil].
    + split; [field|]. split; [field | snoc_not_nil].
  - assert (Hk : 1 <= k).
    { subst k. cbn [List.length]. rewrite S_INR. pose proof (pos_INR (List.length pre)). lra. }
    clear Hnil.
    set (T := total (p :: pre)) in *. set (Q := total_sq (p :: pre)) in *.
    assert (Hm : mean = T / k) by (field_simplify_eq; lra).
    assert (Hs : Sq = Q - T * T / k) by (field_simplify_eq; lra).
    destruct (Req_dec_T (IZR x - mean) 0) as [Hx|Hx]; cbn [fst snd].
    + assert (Hxm : IZR x = T / k) by lra.
      split; [|split].
      * rewrite Hxm, Hm. field. lra.
      * rewrite Hxm, Hs. field. lra.
      * snoc_not_nil.
    + split; [|split].
      * rewrite Hm. field. lra.
      * rewrite Hs, Hm. field. lra.
      * snoc_not_nil.
Qed.

Lemma welford_inv_fold xs :
  forall pre st,
    welford_inv pre st ->
    welford_inv (pre ++ xs) (welford (List.length pre) xs st).
Proof.
  induction xs as [|x xs IH]; intros pre st Hinv; cbn [welford].
  - now rewrite app_nil_r.
  - replace (pre ++ x :: xs) with ((pre ++ [x]) ++ xs) by (now rewrite <- app_assoc).
    replace (S (List.length pre)) with (List.length (pre ++ [x]))
      by (rewrite length_app; cbn; lia).
    apply IH. now apply welford_step_inv.
Qed.

(** Run over a non-empty list from the initial [(0, 0)], the incremental
    rule ends with the arithmetic mean and the sum of the squared deviations
    from it. *)
Lemma welford_exact xs :
  xs <> [] ->
  welford 0 xs (0, 0) = (mean_of xs, sum_sq_dev (mean_of xs) xs).
Proof.
  intros Hne.
  assert (Hinv : welford_inv ([] ++ xs) (welford (List.length (@nil Z)) xs (0, 0))).
  { apply welford_inv_fold. unfold welford_inv, total. cbn. repeat split; lra. }
  cbn [app List.length] in Hinv.
  destruct (welford 0 xs (0, 0)) as [mean Sq].
  destruct Hinv as (Hmean & Hsq & _). cbn [fst snd] in *.
  assert (Hn : 1 <= INR (List.length xs)).
  { destruct xs as [|x xs]; [contradiction|]. cbn [List.length]. rewrite S_INR.
    pose proof (pos_INR (List.length xs)). lra. }
  unfold mean_of. rewrite sum_sq_dev_expand.
  set (n := INR (List.length xs)) in *.
  f_equal.
  - field_simplify_eq; lra.
  - apply (Rmult_eq_reg_l n); [|lra]. rewrite Hsq. field. lra.
Qed.

(* ------------------------------------------------------------------ *)
(** *** The second loop in exact arithmetic *)

Lemma to_ulong_IZR z : ulong_range z -> to_ulong (IZR z) = Some z.
Proof.
  unfold ulong_range, to_ulong. intros [Hlo Hhi].
  destruct (Rle_dec 0 (IZR z)) as [_|Hneg].
  - rewrite <- (Int_part_spec (IZR z) z) by lra.
    destruct (Z.ltb_spec z (2 ^ 64)); [reflexivity | lia].
  - exfalso. apply Hneg. now apply IZR_le.
Qed.

(** Without rounding the additions of the second loop are those of the
    integers, as long as the total is a value of [unsigned long]. *)
Lemma accumulate_exact xs :
  forall avg,
    (0 <= avg)%Z -> Forall ulong_range xs -> (avg + list_sum xs < 2 ^ 64)%Z ->
    accumulate xs avg = Some (avg + list_sum xs)%Z.
Proof.
  induction xs as [|x xs IH]; intros avg Havg Hxs Hsum; cbn [accumulate].
  - unfold list_sum. cbn. f_equal. lia.
  - inversion Hxs as [|? ? Hx Hrest]; subst.
    pose proof (list_sum_nonneg xs Hrest) as Hnn.
    unfold list_sum in *. cbn [fold_right] in *.
    cbn [d_to_ulong d_add d_of_Z ops]. rewrite <- plus_IZR.
    unfold ulong_range in Hx.
    rewrite to_ulong_IZR by (unfold ulong_range; lia).
    rewrite IH by (assumption || lia). f_equal. lia.
Qed.

Lemma Rmax_minus_Rmin a b : Rmax a b - Rmin a b = Rabs (a - b).
Proof.
  unfold Rmax, Rmin, Rabs.
  destruct (Rle_dec a b); destruct (Rcase_abs (a - b)); lra.
Qed.

(** The test of the second loop: a candidate is retained when its distance
    from the mean is at most [sd]. *)
Lemma retained_iff mean sd x :
  retained mean sd x = true <-> Rabs (IZR x - mean) <= sd.
Proof.
  unfold retained. cbn [d_gt d_sub d_fmax d_fmin d_of_Z ops].
  rewrite Rmax_minus_Rmin.
  destruct (Rgt_dec (Rabs (IZR x - mean)) sd) as [H|H]; cbn [negb].
  - split; [discriminate | lra].
  - split; [lra | reflexivity].
Qed.

Lemma all_far_sum c s2 xs :
  xs <> [] ->
  (forall x, In x xs -> s2 < (IZR x - c) * (IZR x - c)) ->
  INR (List.length xs) * s2 < sum_sq_dev c xs.
Proof.
  induction xs as [|x xs IH]; intros Hne Hfar; [contradiction|].
  cbn [List.length sum_sq_dev]. rewrite S_INR.
  pose proof (Hfar x (or_introl eq_refl)) as Hx.
  destruct xs as [|y ys].
  - cbn. lra.
  - assert (Hrest : INR (List.length (y :: ys)) * s2 < sum_sq_dev c (y :: ys)).
    { apply IH; [discriminate|]. intros z Hz. apply Hfar. now right. }
    lra.
Qed.

(** Some candidate is always within one sample standard deviation of the
    mean: the second loop cannot end with [samples == 0]. *)
Lemma some_candidate_retained xs :
  (2 <= List.length xs)%nat ->
  filter (retained (mean_of xs) (sample_sd xs)) xs <> [].
Proof.
  intros Hlen Hnone.
  assert (Hn : 2 <= INR (List.length xs)) by (apply (le_INR 2); exact Hlen).
  set (n := INR (List.length xs)) in *.
  pose proof (sum_sq_dev_nonneg (mean_of xs) xs) as Hnn.
  assert (Hvar : 0 <= sum_sq_dev (mean_of xs) xs / (n - 1)).
  { apply Rmult_le_pos; [exact Hnn|]. apply Rlt_le, Rinv_0_lt_compat. lra. }
  assert (Hsd : sample_sd xs * sample_sd xs = sum_sq_dev (mean_of xs) xs / (n - 1)).
  { unfold sample_sd. fold n. now apply sqrt_sqrt. }
  assert (Hsd0 : 0 <= sample_sd xs) by apply sqrt_pos.
  assert (Hfar : forall x, In x xs ->
            sample_sd xs * sample_sd xs
            < (IZR x - mean_of xs) * (IZR x - mean_of xs)).
  { intros x Hx.
    destruct (Rle_dec (Rabs (IZR x - mean_of xs)) (sample_sd xs)) as [Hin|Hout].
    - exfalso. apply retained_iff in Hin.
      assert (Hk : In x (filter (retained (mean_of xs) (sample_sd xs)) xs))
        by (apply filter_In; now split).
      rewrite Hnone in Hk. exact Hk.
    - assert (Habs : sample_sd xs < Rabs (IZR x - mean_of xs)) by lra.
      unfold Rabs in Habs. destruct (Rcase_abs (IZR x - mean_of xs)); nra. }
  assert (Hne : xs <> []) by (intros ->; cbn in Hlen; lia).
  pose proof (all_far_sum _ _ xs Hne Hfar) as Hsum. fold n in Hsum.
  rewrite Hsd in Hsum.
  assert (Heq : n * (sum_sq_dev (mean_of xs) xs / (n - 1))
                = sum_sq_dev (mean_of xs) xs
                  + sum_sq_dev (mean_of xs) xs / (n - 1))
    by (field; lra).
  lra.
Qed.

End ExactFacts.

(* ================================================================== *)
(** ** The calibration: what is computed *)

Import Reals Lra.

(** C5, as stated, fails: on the candidates above the mean is 30240 and the
    squared deviations add up to 63504000; the compiled code leaves
    [S = sqrt(63504000 / 9)], about 2656.3, where the population formula
    gives [sqrt(63504000 / 10) = 2520]. *)
Lemma sd_is_not_population_style :
  let m := machine_of_candidates (30240 :: spread_candidates) in
  exists sd m',
    calibration_stats (ops := Binary64.ops) (mk_timeval 0 0) junk_array m
    = Done (spread_candidates, Binary64.of_Z 30240, sd) m' /\
    welford (ops := Binary64.ops) 0 spread_candidates (Binary64.of_Z 0, Binary64.of_Z 0)
    = (Binary64.of_Z 30240, Binary64.of_Z 63504000) /\
    sd = PrimFloat.sqrt (PrimFloat.div (Binary64.of_Z 63504000) (Binary64.of_Z 9)) /\
    population_style_sd (ops := Binary64.ops) spread_candidates = Binary64.of_Z 2520 /\
    d_gt sd (population_style_sd (ops := Binary64.ops) spread_candidates) = true.
Proof.
  intros m. eexists. eexists.
  split; [vm_compute; reflexivity|].
  split; [vm_compute; reflexivity|].
  split; [vm_compute; reflexivity|].
  split; vm_compute; reflexivity.
Qed.

(** C5 (amended). Over the ten candidates of its loop the calibrator keeps a
    running mean and accumulates squared deviations by the incremental rule
    of [welford_step], and takes as standard deviation the square root of
    that accumulation divided by 10 - 1 = 9: in every arithmetic, binary64
    included, the first half of [calibrate_cpu_clock] returns the result of
    the rule; and without rounding that result is the arithmetic mean of the
    candidates and their sample standard deviation. *)
Theorem calibration_stats_sample_sd
  (junk : timeval) (cycles0 : list Z) (m m' : machine) (c0 : Z) (xs : list Z) :
  List.length cycles0 = 10%nat ->
  sample_rounds junk 11 m = Done (c0 :: xs) m' ->
  (forall (D : Type) (ops : DoubleOps D),
     calibration_stats junk cycles0 m
     = Done (xs,
             fst (welford 0 xs (d_of_Z 0, d_of_Z 0)),
             d_sqrt (d_div (snd (welford 0 xs (d_of_Z 0, d_of_Z 0)))
                       (d_sub (d_of_Z 10) (d_of_Z 1)))) m') /\
  calibration_stats (ops := Exact.ops) junk cycles0 m
  = Done (xs, Exact.mean_of xs, Exact.sample_sd xs) m'.
Proof.
  intros Hlen Hrounds. split.
  - intros D ops. now apply calibration_stats_rounds with (c0 := c0).
  - rewrite (calibration_stats_rounds junk cycles0 m m' c0 xs Hlen Hrounds).
    assert (Hxs : List.length xs = 10%nat).
    { apply sample_rounds_length in Hrounds. cbn in Hrounds. lia. }
    assert (Hne : xs <> []) by (intros ->; discriminate).
    change (@d_of_Z R Exact.ops 0) with 0%R.
    rewrite (ExactFacts.welford_exact xs Hne). cbn [fst snd].
    unfold Exact.sample_sd. rewrite Hxs.
    cbn [d_sqrt d_div d_sub d_of_Z Exact.ops].
    do 3 f_equal. cbn [INR]. lra.
Qed.

Lemma calibration_stats_sample_sd_witness :
  calibration_stats (ops := Binary64.ops) (mk_timeval 0 0) junk_array
    (machine_of_candidates (30240 :: spread_candidates))
  = Done (spread_candidates, Binary64.of_Z 30240,
          PrimFloat.sqrt (Binary64.of_Z 7056000)) idle_machine.
Proof.
  destruct (calibration_stats_sample_sd (mk_timeval 0 0) junk_array
              (machine_of_candidates (30240 :: spread_candidates)) idle_machine
              30240 spread_candidates) as [Hgen _].
  - reflexivity.
  - vm_compute. reflexivity.
  - rewrite (Hgen _ Binary64.ops). vm_compute. reflexivity.
Defined.

(* ------------------------------------------------------------------ *)
(** *** The final constant *)

(** C6, as stated, fails: with every round at 30240 cycles all ten
    candidates are retained and their mean is 30240, but the constant stored
    is 3024. *)
Lemma constant_is_not_the_mean :
  let xs := repeat 30240 10 in
  let m := machine_of_candidates (30240 :: xs) in
  let stats := welford (ops := Binary64.ops) 0 xs (Binary64.of_Z 0, Binary64.of_Z 0) in
  let sd := PrimFloat.sqrt (PrimFloat.div (snd stats) (Binary64.of_Z 9)) in
  let kept := filter (retained (fst stats) sd) xs in
  exists m',
    calibrate_cpu_clock (ops := Binary64.ops) (mk_timeval 0 0) junk_array m
    = Done tt m' /\
    kept = xs /\
    mean_of_retained kept = 30240 /\
    cycles_per_usec (glob m') = 3024.
Proof.
  intros xs m stats sd kept. eexists.
  split; [vm_compute; reflexivity|].
  split; [vm_compute; reflexivity|].
  split; [vm_compute; reflexivity|].
  reflexivity.
Qed.

(** C6 (amended). The constant stored in [cycles_per_usec] is the sum of
    exactly those candidates that the test of the second loop retains (those
    whose distance from the computed mean is not above the computed standard
    deviation), divided by ten times their number, in unsigned integer
    division; a candidate the test rejects adds nothing. This holds in every
    arithmetic in which the additions of the retained candidates are exact
    and one candidate at least is retained; without rounding both are
    always so, as long as the candidates add up to less than 2^64. *)
Theorem calibration_averages_retained
  (junk : timeval) (cycles0 : list Z) (m m' : machine) (c0 : Z) (xs : list Z) :
  List.length cycles0 = 10%nat ->
  sample_rounds junk 11 m = Done (c0 :: xs) m' ->
  (forall (D : Type) (ops : DoubleOps D),
     let mean := fst (welford 0 xs (d_of_Z 0, d_of_Z 0)) in
     let sd := d_sqrt (d_div (snd (welford 0 xs (d_of_Z 0, d_of_Z 0)))
                         (d_sub (d_of_Z 10) (d_of_Z 1))) in
     let kept := filter (retained mean sd) xs in
     kept <> [] ->
     accumulate kept 0 = Some (list_sum kept) ->
     calibrate_cpu_clock junk cycles0 m
     = Done tt (with_cycles_per_usec m'
                  (list_sum kept / (Z.of_nat (List.length kept) * 10)))) /\
  (list_sum xs < 2 ^ 64 ->
   let kept :=
     filter (retained (ops := Exact.ops) (Exact.mean_of xs) (Exact.sample_sd xs)) xs in
   kept <> [] /\
   (forall x, In x kept <->
              In x xs /\ (Rabs (IZR x - Exact.mean_of xs) <= Exact.sample_sd xs)%R) /\
   calibrate_cpu_clock (ops := Exact.ops) junk cycles0 m
   = Done tt (with_cycles_per_usec m'
                (list_sum kept / (Z.of_nat (List.length kept) * 10)))).
Proof.
  intros Hlen Hrounds. split.
  - intros D ops mean sd kept Hne Hexact.
    rewrite (calibrate_cpu_clock_rounds junk cycles0 m m' c0 xs Hlen Hrounds).
    fold mean sd kept. rewrite Hexact.
    unfold kept. now rewrite length_filter_pos.
  - intros Hsum kept.
    assert (Hxs : List.length xs = 10%nat).
    { apply sample_rounds_length in Hrounds. cbn in Hrounds. lia. }
    assert (Hrange : Forall ulong_range xs).
    { apply sample_rounds_range in Hrounds. now inversion Hrounds. }
    assert (Hne : kept <> []).
    { apply ExactFacts.some_candidate_retained. lia. }
    split; [exact Hne|]. split.
    + intros x. unfold kept. rewrite filter_In, ExactFacts.retained_iff. reflexivity.
    + rewrite (calibrate_cpu_clock_rounds junk cycles0 m m' c0 xs Hlen Hrounds).
      change (@d_of_Z R Exact.ops 0) with 0%R.
      rewrite (ExactFacts.welford_exact xs) by (intros ->; discriminate).
      cbn [fst snd].
      replace (d_sqrt (d_div (Exact.sum_sq_dev (Exact.mean_of xs) xs)
                         (d_sub (d_of_Z 10) (d_of_Z 1))))
        with (Exact.sample_sd xs).
      2:{ unfold Exact.sample_sd. rewrite Hxs.
          cbn [d_sqrt d_div d_sub d_of_Z Exact.ops INR]. do 2 f_equal. lra. }
      fold kept.
      rewrite (ExactFacts.accumulate_exact kept 0).
      * unfold kept at 1. rewrite length_filter_pos by exact Hne. reflexivity.
      * lia.
      * now apply Forall_filter_range.
      * pose proof (list_sum_filter_le
                      (retained (Exact.mean_of xs) (Exact.sample_sd xs)) xs Hrange).
        fold kept in H. lia.
Qed.

Lemma calibration_averages_retained_witness :
  calibrate_cpu_clock (ops := Binary64.ops) (mk_timeval 0 0) junk_array
    (machine_of_candidates
       (30240 :: [29990; 30010; 30000; 30005; 29995; 30000; 45000; 30002; 29998; 30000]))
  = Done tt (with_cycles_per_usec idle_machine 3000).
Proof.
  destruct (calibration_averages_retained (mk_timeval 0 0) junk_array
              (machine_of_candidates
                 (30240 :: [29990; 30010; 30000; 30005; 29995; 30000; 45000;
                            30002; 29998; 30000]))
              idle_machine 30240
              [29990; 30010; 30000; 30005; 29995; 30000; 45000; 30002; 29998; 30000])
    as [Hgen _].
  - reflexivity.
  - vm_compute. reflexivity.
  - rewrite (Hgen _ Binary64.ops).
    + vm_compute. reflexivity.
    + vm_compute. discriminate.
    + vm_compute. reflexivity.
Defined.

(* ################################################################## *)
(** * Part III: further properties *)

(* ================================================================== *)
(** ** What [utime_since] and [mtime_since] compute *)

Lemma to_ulong_mul_add a b c :
  to_ulong (to_ulong (to_ulong a * b) + to_ulong c) = to_ulong (a * b + c).
Proof.
  unfold to_ulong.
  rewrite Zmult_mod_idemp_l, <- Zplus_mod. reflexivity.
Qed.

(** For normalised samples the borrow never changes which side of the
    time-warp test a pair is on. *)
Lemma borrow_keeps_warp s e sec usec :
  usec_ok s -> usec_ok e ->
  borrow (delta_sec s e) (delta_usec s e) = (sec, usec) ->
  time_warp sec usec = time_warp (delta_sec s e) (delta_usec s e).
Proof.
  unfold usec_ok. intros Hs He Hb.
  assert (Hdu : delta_usec s e = tv_usec e - tv_usec s).
  { unfold delta_usec. apply to_long_id. unfold long_range. lia. }
  pose proof (to_long_range (tv_sec e - tv_sec s)) as Hr.
  fold (delta_sec s e) in Hr. unfold long_range in Hr.
  unfold borrow in Hb.
  destruct (Z.ltb_spec 0 (delta_sec s e)); destruct (Z.ltb_spec (delta_usec s e) 0);
    cbn [andb] in Hb.
  - rewrite !to_long_id in Hb by (unfold long_range; lia).
    injection Hb as <- <-. unfold time_warp. lia.
  - now injection Hb as <- <-.
  - now injection Hb as <- <-.
  - now injection Hb as <- <-.
Qed.

Lemma utime_since_normalised s e :
  usec_ok s -> usec_ok e ->
  utime_since s e
  = if time_warp (delta_sec s e) (delta_usec s e) then 0
    else to_ulong (delta_sec s e * 1000000 + delta_usec s e).
Proof.
  intros Hs He. unfold utime_since.
  destruct (borrow (delta_sec s e) (delta_usec s e)) as [sec usec] eqn:Hb.
  rewrite <- (borrow_keeps_warp s e sec usec Hs He Hb).
  destruct (time_warp sec usec) eqn:Hw; [reflexivity|].
  destruct (borrow_normalised s e sec usec Hs He Hb Hw) as (Hsec & Husec & Htot).
  now rewrite to_ulong_mul_add, Htot.
Qed.

Lemma mtime_since_normalised s e :
  usec_ok s -> usec_ok e ->
  delta_sec s e * 1000000 + delta_usec s e < 2^64 ->
  mtime_since s e
  = if time_warp (delta_sec s e) (delta_usec s e) then 0
    else (delta_sec s e * 1000000 + delta_usec s e) / 1000.
Proof.
  intros Hs He Hfit. unfold mtime_since.
  destruct (borrow (delta_sec s e) (delta_usec s e)) as [sec usec] eqn:Hb.
  rewrite <- (borrow_keeps_warp s e sec usec Hs He Hb).
  destruct (time_warp sec usec) eqn:Hw; [reflexivity|].
  destruct (borrow_normalised s e sec usec Hs He Hb Hw) as (Hsec & Husec & Htot).
  rewrite <- Htot in *.
  assert (Hdiv : 0 <= usec / 1000 < 1000)
    by (split; [apply Z.div_pos; lia | apply Z.div_lt_upper_bound; lia]).
  rewrite (to_ulong_id sec) by (unfold ulong_range; lia).
  rewrite (to_ulong_id usec) by (unfold ulong_range; lia).
  rewrite (to_ulong_id (sec * 1000)) by (unfold ulong_range; lia).
  rewrite (to_long_id (sec * 1000)) by (unfold long_range; lia).
  rewrite (to_long_id (usec / 1000)) by (unfold long_range; lia).
  rewrite (to_long_id (sec * 1000 + usec / 1000)) by (unfold long_range; lia).
  rewrite to_ulong_id by (unfold ulong_range; lia).
  replace (sec * 1000000 + usec) with (sec * 1000 * 1000 + usec) by lia.
  now rewrite Z.div_add_l by lia.
Qed.

(** For normalised samples whose second difference is representable, the
    time-warp test is the sign of the microsecond count. *)
Lemma time_warp_sign s e :
  usec_ok s -> usec_ok e -> long_range (tv_sec e - tv_sec s) ->
  delta_sec s e * 1000000 + delta_usec s e = elapsed_usec s e /\
  (time_warp (delta_sec s e) (delta_usec s e) = true <-> elapsed_usec s e < 0).
Proof.
  unfold usec_ok, elapsed_usec, delta_sec, delta_usec. intros Hs He Hr.
  rewrite (to_long_id (tv_sec e - tv_sec s)) by exact Hr.
  rewrite (to_long_id (tv_usec e - tv_usec s)) by (unfold long_range; lia).
  split; [reflexivity|]. rewrite time_warp_true. lia.
Qed.

Lemma utime_since_max s e :
  usec_ok s -> usec_ok e ->
  long_range (tv_sec e - tv_sec s) ->
  elapsed_usec s e < 2^64 ->
  utime_since s e = Z.max 0 (elapsed_usec s e).
Proof.
  intros Hs He Hr Hfit.
  destruct (time_warp_sign s e Hs He Hr) as [Htot Hsign].
  rewrite (utime_since_normalised s e Hs He), Htot.
  destruct (time_warp (delta_sec s e) (delta_usec s e)).
  - assert (elapsed_usec s e < 0) by now apply Hsign. lia.
  - assert (~ elapsed_usec s e < 0) by (intros H; apply Hsign in H; discriminate).
    rewrite to_ulong_id by (unfold ulong_range; lia). lia.
Qed.

Lemma mtime_since_max s e :
  usec_ok s -> usec_ok e ->
  long_range (tv_sec e - tv_sec s) ->
  elapsed_usec s e < 2^64 ->
  mtime_since s e = Z.max 0 (elapsed_usec s e) / 1000.
Proof.
  intros Hs He Hr Hfit.
  destruct (time_warp_sign s e Hs He Hr) as [Htot Hsign].
  rewrite (mtime_since_normalised s e Hs He) by (rewrite Htot; exact Hfit).
  rewrite Htot.
  destruct (time_warp (delta_sec s e) (delta_usec s e)).
  - assert (elapsed_usec s e < 0) by now apply Hsign.
    rewrite Z.max_l by lia. reflexivity.
  - assert (~ elapsed_usec s e < 0) by (intros H; apply Hsign in H; discriminate).
    rewrite Z.max_r by lia. reflexivity.
Qed.

(** X1. [utime_since] on normalised samples is the microseconds from [s] to
    [e], and 0 when [e] is before [s]; [mtime_since] is that count in whole
    milliseconds. *)
Theorem elapsed_closed_form (s e : timeval) :
  usec_ok s -> usec_ok e ->
  long_range (tv_sec e - tv_sec s) ->
  elapsed_usec s e < 2^64 ->
  utime_since s e = Z.max 0 (elapsed_usec s e) /\
  mtime_since s e = Z.max 0 (elapsed_usec s e) / 1000.
Proof.
  intros Hs He Hr Hfit. split.
  - now apply utime_since_max.
  - now apply mtime_since_max.
Qed.

Lemma elapsed_closed_form_witness :
  utime_since (mk_timeval 10 900000) (mk_timeval 12 100500) = 1200500 /\
  mtime_since (mk_timeval 10 900000) (mk_timeval 12 100500) = 1200.
Proof.
  apply (elapsed_closed_form (mk_timeval 10 900000) (mk_timeval 12 100500)).
  - unfold usec_ok; cbn; lia.
  - unfold usec_ok; cbn; lia.
  - unfold long_range; cbn; lia.
  - vm_compute; reflexivity.
Defined.

Lemma tv_sane_pair s e :
  tv_sane s -> tv_sane e ->
  usec_ok s /\ usec_ok e /\ long_range (tv_sec e - tv_sec s) /\
  elapsed_usec s e < 2^64.
Proof.
  unfold tv_sane, usec_ok, long_range, elapsed_usec. intros Hs He.
  repeat split; lia.
Qed.

Lemma utime_since_sane s e :
  tv_sane s -> tv_sane e -> utime_since s e = Z.max 0 (elapsed_usec s e).
Proof.
  intros Hs He. destruct (tv_sane_pair s e Hs He) as (H1 & H2 & H3 & H4).
  now apply utime_since_max.
Qed.

Lemma mtime_since_sane s e :
  tv_sane s -> tv_sane e -> mtime_since s e = Z.max 0 (elapsed_usec s e) / 1000.
Proof.
  intros Hs He. destruct (tv_sane_pair s e Hs He) as (H1 & H2 & H3 & H4).
  now apply mtime_since_max.
Qed.

Lemma tv_le_elapsed a b : tv_sane a -> tv_sane b -> (tv_le a b <-> 0 <= elapsed_usec a b).
Proof. unfold tv_sane, tv_le, tv_lt, elapsed_usec. lia. Qed.

(** X2. Elapsed microseconds add up along a chain of samples in order: from
    [a] to [c] is from [a] to [b] plus from [b] to [c]. *)
Theorem utime_since_additive (a b c : timeval) :
  tv_sane a -> tv_sane b -> tv_sane c ->
  tv_le a b -> tv_le b c ->
  utime_since a c = utime_since a b + utime_since b c.
Proof.
  intros Ha Hb Hc Hab Hbc.
  rewrite !utime_since_sane by assumption.
  apply (tv_le_elapsed a b Ha Hb) in Hab. apply (tv_le_elapsed b c Hb Hc) in Hbc.
  unfold elapsed_usec in *. lia.
Qed.

Lemma utime_since_additive_witness :
  utime_since (mk_timeval 5 999999) (mk_timeval 9 1)
  = utime_since (mk_timeval 5 999999) (mk_timeval 7 500000)
    + utime_since (mk_timeval 7 500000) (mk_timeval 9 1).
Proof.
  apply utime_since_additive.
  - unfold tv_sane; cbn; lia.
  - unfold tv_sane; cbn; lia.
  - unfold tv_sane; cbn; lia.
  - unfold tv_le, tv_lt; cbn; lia.
  - unfold tv_le, tv_lt; cbn; lia.
Defined.

(** X3. Both elapsed times grow with the end sample: a later [e] never gives
    a smaller result, and the result is 0 exactly when [e] is not after
    [s]. *)
Theorem elapsed_monotone (s e1 e2 : timeval) :
  tv_sane s -> tv_sane e1 -> tv_sane e2 ->
  tv_le e1 e2 ->
  utime_since s e1 <= utime_since s e2 /\
  mtime_since s e1 <= mtime_since s e2 /\
  (utime_since s e1 = 0 <-> tv_le e1 s).
Proof.
  intros Hs H1 H2 Hle.
  rewrite !utime_since_sane, !mtime_since_sane by assumption.
  assert (Hel : elapsed_usec s e1 <= elapsed_usec s e2).
  { unfold tv_le, tv_lt, elapsed_usec, tv_sane in *. lia. }
  split; [lia|]. split.
  - apply Z.div_le_mono; lia.
  - rewrite (tv_le_elapsed e1 s H1 Hs). unfold elapsed_usec. lia.
Qed.

Lemma elapsed_monotone_witness :
  utime_since (mk_timeval 3 0) (mk_timeval 2 999999)
  <= utime_since (mk_timeval 3 0) (mk_timeval 3 1).
Proof.
  apply (elapsed_monotone (mk_timeval 3 0) (mk_timeval 2 999999) (mk_timeval 3 1)).
  - unfold tv_sane; cbn; lia.
  - unfold tv_sane; cbn; lia.
  - unfold tv_sane; cbn; lia.
  - unfold tv_le, tv_lt; cbn; lia.
Defined.

(* ================================================================== *)
(** ** [fio_gettime]: what a call leaves behind *)

From Stdlib Require Import Sorted.

(** The switch leaves every global but [last_cycles] alone, and that one it
    only raises. *)
Lemma read_clock_source_frame tp m cand m1 :
  read_clock_source tp m = Done cand m1 ->
  cycles_per_usec (glob m1) = cycles_per_usec (glob m) /\
  last_tv (glob m1) = last_tv (glob m) /\
  last_tv_valid (glob m1) = last_tv_valid (glob m) /\
  fio_clock_source (glob m1) = fio_clock_source (glob m) /\
  fio_tv (glob m1) = fio_tv (glob m) /\
  last_cycles (glob m) <= last_cycles (glob m1).
Proof.
  unfold read_clock_source. run_m.
  destruct (fio_clock_source (glob m)) eqn:Hcs.
  - unfold gettimeofday. destruct (gtod_tape (env m)); [discriminate|].
    intros H. injection H as _ <-. cbn.
    repeat split; try assumption; try reflexivity; lia.
  - unfold clock_gettime.
    destruct (cgettime_tape (env m)) as [|[ts|] ?]; try discriminate.
    cbn. intros H. injection H as _ <-. cbn.
    repeat split; try assumption; try reflexivity; lia.
  - unfold get_cpu_clock.
    destruct (cpu_tape (env m)) as [|c rest]; [discriminate|]. cbn [glob env].
    destruct (cycles_per_usec (glob m) =? 0); [discriminate|].
    cbn. intros H. injection H as _ <-. cbn.
    repeat split; try assumption; try reflexivity.
    destruct (Z.ltb_spec c (last_cycles (glob m))); lia.
  - unfold log_err. cbn. intros H. injection H as _ <-. cbn.
    repeat split; try assumption; try reflexivity; lia.
Qed.

(** One call with [fio_tv] null, taken apart: the switch gives a candidate,
    the fix-up turns it into the sample returned, and that sample is stored
    in [last_tv]. *)
Lemma fio_gettime_null_inv tp m tv m' :
  fio_tv (glob m) = None ->
  fio_gettime tp m = Done tv m' ->
  exists cand m1,
    read_clock_source tp m = Done cand m1 /\
    tv = fixup (glob m) cand /\
    env m' = env m1 /\
    last_tv (glob m') = tv /\
    last_tv_valid (glob m') = 1 /\
    cycles_per_usec (glob m') = cycles_per_usec (glob m) /\
    fio_clock_source (glob m') = fio_clock_source (glob m) /\
    fio_tv (glob m') = None /\
    last_cycles (glob m') = last_cycles (glob m1).
Proof.
  intros Hnull. unfold fio_gettime. unfold bind at 1. unfold get_globals.
  cbn [glob]. rewrite Hnull.
  unfold bind at 1.
  destruct (read_clock_source tp m) as [cand m1| | |] eqn:Hread; try discriminate.
  destruct (read_clock_source_frame tp m cand m1 Hread)
    as (Hcpu & Hlast & Hvalid & Hcs & Hfix & _).
  run_m. intros H. injection H as <- <-. cbn [glob env last_tv last_tv_valid
    cycles_per_usec fio_clock_source fio_tv last_cycles].
  exists cand, m1. rewrite Hcpu, Hcs, Hfix, Hnull.
  repeat split; try reflexivity.
  unfold fixup. now rewrite Hlast, Hvalid.
Qed.

Lemma fio_gettime_fixed_inv tp m tv m' fixed :
  fio_tv (glob m) = Some fixed ->
  fio_gettime tp m = Done tv m' -> tv = fixed /\ m' = m.
Proof.
  intros Hfix. unfold fio_gettime. run_m. rewrite Hfix.
  intros H. injection H as <- <-. now split.
Qed.

Lemma last_default {A : Type} (l : list A) (d1 d2 : A) :
  l <> [] -> last l d1 = last l d2.
Proof.
  induction l as [|x l IH]; [contradiction|]. intros _.
  destruct l as [|y l]; [reflexivity|].
  change (last (y :: l) d1 = last (y :: l) d2). now apply IH.
Qed.

Lemma fio_gettime_seq_cons_inv tp tps m tvs m' :
  fio_gettime_seq (tp :: tps) m = Done tvs m' ->
  exists tv rest m1,
    fio_gettime tp m = Done tv m1 /\
    fio_gettime_seq tps m1 = Done rest m' /\
    tvs = tv :: rest.
Proof.
  cbn [fio_gettime_seq]. intros H.
  apply bind_Done_inv in H. destruct H as (tv & m1 & H1 & H).
  apply bind_Done_inv in H. destruct H as (rest & m2 & H2 & H).
  unfold ret in H. injection H as <- <-.
  now exists tv, rest, m1.
Qed.

(** X4. No call of [fio_gettime] changes [cycles_per_usec],
    [fio_clock_source] or [fio_tv], and a sequence of calls returns one
    sample per call; with [fio_tv] null, [last_tv] ends up holding the last
    sample returned, marked valid. *)
Theorem fio_gettime_seq_frame (tps : list timeval) :
  forall (m m' : machine) (tvs : list timeval),
    fio_gettime_seq tps m = Done tvs m' ->
    List.length tvs = List.length tps /\
    cycles_per_usec (glob m') = cycles_per_usec (glob m) /\
    fio_clock_source (glob m') = fio_clock_source (glob m) /\
    fio_tv (glob m') = fio_tv (glob m) /\
    (fio_tv (glob m) = None -> tps <> [] ->
     last_tv (glob m') = last tvs (last_tv (glob m)) /\
     last_tv_valid (glob m') = 1).
Proof.
  induction tps as [|tp tps IH]; intros m m' tvs Hrun.
  - cbn in Hrun. unfold ret in Hrun. injection Hrun as <- <-.
    split; [reflexivity|]. split; [reflexivity|]. split; [reflexivity|].
    split; [reflexivity|]. intros _ Hne. now destruct Hne.
  - apply fio_gettime_seq_cons_inv in Hrun.
    destruct Hrun as (tv & rest & m1 & Hone & Hrest & ->).
    destruct (IH m1 m' rest Hrest) as (Hlen & Hcpu & Hcs & Hfix & Hlast).
    destruct (fio_tv (glob m)) as [fixed|] eqn:Hnull.
    + destruct (fio_gettime_fixed_inv tp m tv m1 fixed Hnull Hone) as [-> ->].
      rewrite Hcpu, Hcs, Hfix, Hnull. cbn [List.length].
      split; [lia|]. split; [reflexivity|]. split; [reflexivity|].
      split; [reflexivity|]. intros Hx. discriminate Hx.
    + destruct (fio_gettime_null_inv tp m tv m1 Hnull Hone)
        as (cand & m0 & _ & _ & _ & Hltv & Hlv & Hcpu1 & Hcs1 & Hfix1 & _).
      rewrite Hcpu, Hcs, Hfix, Hcpu1, Hcs1, Hfix1. cbn [List.length].
      split; [lia|]. split; [reflexivity|]. split; [reflexivity|].
      split; [reflexivity|]. intros _ _. split.
      * destruct tps as [|tp2 tps].
        -- cbn in Hrest. unfold ret in Hrest. injection Hrest as <- <-.
           cbn. exact Hltv.
        -- destruct (Hlast Hfix1 ltac:(discriminate)) as [Hl _].
           rewrite Hl.
           apply fio_gettime_seq_cons_inv in Hrest.
           destruct Hrest as (tv2 & rest2 & m2 & _ & _ & ->).
           change (last (tv :: tv2 :: rest2) (last_tv (glob m)))
             with (last (tv2 :: rest2) (last_tv (glob m))).
           now apply last_default.
      * destruct tps as [|tp2 tps].
        -- cbn in Hrest. unfold ret in Hrest. injection Hrest as _ <-. exact Hlv.
        -- now destruct (Hlast Hfix1 ltac:(discriminate)).
Qed.

Lemma fio_gettime_seq_frame_witness :
  let m := mk_machine
             (mk_globals 3000 0 (mk_timeval 0 0) 0 CS_GTOD None)
             (mk_world [Some (mk_timeval 5 500000); Some (mk_timeval 4 100)] [] [] []) in
  exists m',
    fio_gettime_seq [mk_timeval 0 0; mk_timeval 0 0] m
    = Done [mk_timeval 5 500000; mk_timeval 5 100] m' /\
    cycles_per_usec (glob m') = 3000 /\
    last_tv (glob m') = mk_timeval 5 100.
Proof.
  intros m.
  destruct (fio_gettime_seq [mk_timeval 0 0; mk_timeval 0 0] m) as [tvs m'| | |] eqn:Hrun;
    try (vm_compute in Hrun; discriminate Hrun).
  destruct (fio_gettime_seq_frame _ m m' tvs Hrun) as (_ & Hcpu & _ & _ & Hlast).
  destruct (Hlast eq_refl ltac:(discriminate)) as [Hl _].
  assert (Htvs : tvs = [mk_timeval 5 500000; mk_timeval 5 100]).
  { vm_compute in Hrun. now injection Hrun as <- _. }
  exists m'. subst tvs. repeat split; assumption.
Defined.

(* ================================================================== *)
(** ** The order of the samples returned *)

Lemma fio_gettime_seq_fixed tps :
  forall m m' tvs fixed,
    fio_tv (glob m) = Some fixed ->
    fio_gettime_seq tps m = Done tvs m' ->
    Forall (fun tv => tv = fixed) tvs.
Proof.
  induction tps as [|tp tps IH]; intros m m' tvs fixed Hfix Hrun.
  - cbn in Hrun. unfold ret in Hrun. injection Hrun as <- _. constructor.
  - apply fio_gettime_seq_cons_inv in Hrun.
    destruct Hrun as (tv & rest & m1 & Hone & Hrest & ->).
    destruct (fio_gettime_fixed_inv tp m tv m1 fixed Hfix Hone) as [-> ->].
    constructor; [reflexivity|]. eapply IH; eassumption.
Qed.

Lemma fio_gettime_seq_sec_bound tps :
  forall m m' tvs,
    fio_tv (glob m) = None ->
    last_tv_valid (glob m) <> 0 ->
    fio_gettime_seq tps m = Done tvs m' ->
    StronglySorted sec_le tvs /\
    Forall (sec_le (last_tv (glob m))) tvs.
Proof.
  induction tps as [|tp tps IH]; intros m m' tvs Hnull Hvalid Hrun.
  - cbn in Hrun. unfold ret in Hrun. injection Hrun as <- _.
    split; constructor.
  - apply fio_gettime_seq_cons_inv in Hrun.
    destruct Hrun as (tv & rest & m1 & Hone & Hrest & ->).
    destruct (fio_gettime_null_inv tp m tv m1 Hnull Hone)
      as (cand & m0 & _ & Htv & _ & Hltv & Hlv & _ & _ & Hfix1 & _).
    destruct (IH m1 m' rest Hfix1 ltac:(lia) Hrest) as [Hsorted Hbound].
    rewrite Hltv in Hbound.
    assert (Hstep : sec_le (last_tv (glob m)) tv).
    { unfold sec_le. rewrite Htv. now apply fixup_sec_monotone. }
    split.
    + constructor; assumption.
    + constructor; [exact Hstep|].
      eapply Forall_impl; [|exact Hbound].
      unfold sec_le in *. intros a Ha. lia.
Qed.

(** X5. Whatever the clock source does, the seconds of the samples that
    successive calls return never go back; and with [fio_tv] null and
    [last_tv] valid they are never below the seconds of [last_tv]. *)
Theorem fio_gettime_seconds_never_go_back
  (tps : list timeval) (m m' : machine) (tvs : list timeval) :
  fio_gettime_seq tps m = Done tvs m' ->
  StronglySorted sec_le tvs /\
  (fio_tv (glob m) = None -> last_tv_valid (glob m) <> 0 ->
   Forall (sec_le (last_tv (glob m))) tvs).
Proof.
  intros Hrun. split.
  - destruct (fio_tv (glob m)) as [fixed|] eqn:Hfix.
    + pose proof (fio_gettime_seq_fixed tps m m' tvs fixed Hfix Hrun) as Hall.
      clear Hrun. induction Hall as [|tv tvs -> Hall IH]; constructor.
      * exact IH.
      * eapply Forall_impl; [|exact Hall].
        intros a ->. unfold sec_le. lia.
    + destruct tps as [|tp tps].
      * cbn in Hrun. unfold ret in Hrun. injection Hrun as <- _. constructor.
      * apply fio_gettime_seq_cons_inv in Hrun.
        destruct Hrun as (tv & rest & m1 & Hone & Hrest & ->).
        destruct (fio_gettime_null_inv tp m tv m1 Hfix Hone)
          as (cand & m0 & _ & _ & _ & Hltv & Hlv & _ & _ & Hfix1 & _).
        destruct (fio_gettime_seq_sec_bound tps m1 m' rest Hfix1 ltac:(lia) Hrest)
          as [Hsorted Hbound].
        rewrite Hltv in Hbound. constructor; assumption.
  - intros Hnull Hvalid.
    now destruct (fio_gettime_seq_sec_bound tps m m' tvs Hnull Hvalid Hrun).
Qed.

Lemma fio_gettime_seconds_never_go_back_witness :
  let m := mk_machine
             (mk_globals 3000 0 (mk_timeval 0 0) 0 CS_GTOD None)
             (mk_world [Some (mk_timeval 5 500000); Some (mk_timeval 4 100)] [] [] []) in
  StronglySorted sec_le [mk_timeval 5 500000; mk_timeval 5 100].
Proof.
  intros m.
  refine (proj1 (fio_gettime_seconds_never_go_back
                   [mk_timeval 0 0; mk_timeval 0 0] m
                   (mk_machine
                      (mk_globals 3000 0 (mk_timeval 5 100) 1 CS_GTOD None)
                      (mk_world [] [] [] []))
                   [mk_timeval 5 500000; mk_timeval 5 100] _)).
  vm_compute. reflexivity.
Defined.

Lemma tv_le_refl a : tv_le a a.
Proof. unfold tv_le, tv_lt. lia. Qed.

Lemma tv_le_trans a b c : tv_le a b -> tv_le b c -> tv_le a c.
Proof. unfold tv_le, tv_lt. lia. Qed.

(** The fix-up leaves alone a candidate that is not before [last_tv]. *)
Lemma fixup_id g cand :
  last_tv_valid g = 0 \/ tv_le (last_tv g) cand -> fixup g cand = cand.
Proof.
  unfold fixup, tv_le, tv_lt. intros H.
  destruct (Z.eqb_spec (last_tv_valid g) 0) as [|Hv]; [reflexivity|].
  destruct H as [H|H]; [contradiction|].
  destruct (Z.ltb_spec (tv_sec cand) (tv_sec (last_tv g))); [lia|].
  destruct (Z.eqb_spec (tv_sec (last_tv g)) (tv_sec cand));
    destruct (Z.ltb_spec (tv_usec cand) (tv_usec (last_tv g)));
    cbn [andb]; try reflexivity; lia.
Qed.

(** A candidate whose second is not before that of [last_tv] comes out of
    the fix-up in its own second, and not before [last_tv]. *)
Lemma fixup_same_second g cand :
  last_tv_valid g = 0 \/ tv_sec (last_tv g) <= tv_sec cand ->
  tv_sec (fixup g cand) = tv_sec cand /\
  (last_tv_valid g <> 0 -> tv_le (last_tv g) (fixup g cand)).
Proof.
  unfold fixup, tv_le, tv_lt. intros H.
  destruct (Z.eqb_spec (last_tv_valid g) 0) as [Hz|Hv].
  - split; [reflexivity | contradiction].
  - destruct H as [H|H]; [contradiction|].
    destruct (Z.ltb_spec (tv_sec cand) (tv_sec (last_tv g))); [lia|].
    destruct (Z.eqb_spec (tv_sec (last_tv g)) (tv_sec cand));
      destruct (Z.ltb_spec (tv_usec cand) (tv_usec (last_tv g)));
      cbn [andb tv_sec tv_usec]; split; try reflexivity; intros _; lia.
Qed.

Lemma fio_gettime_gtod_step tp m r tl :
  fio_tv (glob m) = None ->
  fio_clock_source (glob m) = CS_GTOD ->
  gtod_tape (env m) = Some r :: tl ->
  fio_gettime tp m
  = Done (fixup (glob m) r)
      (mk_machine (after_call (glob m) (last_cycles (glob m)) (fixup (glob m) r))
         (mk_world tl (cgettime_tape (env m)) (cpu_tape (env m)) (err_log (env m)))).
Proof.
  intros Hnull Hcs Htape.
  unfold fio_gettime, read_clock_source, gettimeofday, after_call.
  run_m. rewrite Hnull. run_m. rewrite Hcs, Htape. cbn.
  rewrite ?Hnull, ?Hcs. reflexivity.
Qed.

Lemma fio_gettime_cpu_step tp m c tl :
  fio_tv (glob m) = None ->
  fio_clock_source (glob m) = CS_CPUCLOCK ->
  cpu_tape (env m) = c :: tl ->
  cycles_per_usec (glob m) <> 0 ->
  let t := Z.max c (last_cycles (glob m)) in
  let cand := cycles_to_timeval t (cycles_per_usec (glob m)) in
  fio_gettime tp m
  = Done (fixup (glob m) cand)
      (mk_machine (after_call (glob m) t (fixup (glob m) cand))
         (mk_world (gtod_tape (env m)) (cgettime_tape (env m)) tl (err_log (env m)))).
Proof.
  intros Hnull Hcs Htape Hcpu t cand.
  assert (Ht : (if c <? last_cycles (glob m) then last_cycles (glob m) else c) = t).
  { unfold t. destruct (Z.ltb_spec c (last_cycles (glob m))); lia. }
  unfold fio_gettime, read_clock_source, get_cpu_clock, after_call.
  run_m. rewrite Hnull. run_m. rewrite Hcs, Htape. cbn [glob env].
  destruct (Z.eqb_spec (cycles_per_usec (glob m)) 0) as [|_]; [contradiction|].
  cbn [glob env]. rewrite Ht. cbn. rewrite ?Hnull, ?Hcs. reflexivity.
Qed.

(** X6. With the wall-clock source, as long as the seconds [gettimeofday]
    reports never step back (and start no earlier than [last_tv]'s), the
    samples returned are in order: none is before an earlier one. *)
Theorem gtod_samples_in_order (rs : list timeval) :
  forall (tps : list timeval) (m : machine) (rest : list (option timeval)),
    fio_tv (glob m) = None ->
    fio_clock_source (glob m) = CS_GTOD ->
    gtod_tape (env m) = map Some rs ++ rest ->
    List.length tps = List.length rs ->
    StronglySorted sec_le rs ->
    (last_tv_valid (glob m) <> 0 -> Forall (sec_le (last_tv (glob m))) rs) ->
    exists tvs m',
      fio_gettime_seq tps m = Done tvs m' /\
      StronglySorted tv_le tvs /\
      (last_tv_valid (glob m) <> 0 -> Forall (tv_le (last_tv (glob m))) tvs) /\
      map tv_sec tvs = map tv_sec rs.
Proof.
  induction rs as [|r rs IH]; intros tps m rest Hnull Hcs Htape Hlen Hsorted Hstart.
  - destruct tps; [|discriminate]. exists [], m.
    repeat split; constructor.
  - destruct tps as [|tp tps]; [discriminate|]. injection Hlen as Hlen.
    cbn [map app] in Htape.
    pose proof (fio_gettime_gtod_step tp m r _ Hnull Hcs Htape) as Hone.
    set (tv := fixup (glob m) r) in *.
    set (m1 := mk_machine _ _) in Hone.
    inversion Hsorted as [|? ? Hsorted' Hhd]; subst.
    assert (Hsec : last_tv_valid (glob m) = 0 \/ tv_sec (last_tv (glob m)) <= tv_sec r).
    { destruct (Z.eq_dec (last_tv_valid (glob m)) 0) as [|Hv]; [now left|].
      right. specialize (Hstart Hv). now inversion Hstart. }
    destruct (fixup_same_second (glob m) r Hsec) as [Htvsec Htvle]. fold tv in Htvsec, Htvle.
    destruct (IH tps m1 rest) as (tvs & m' & Hrun & Hs & Hb & Hsecs); try assumption;
      try reflexivity.
    { intros _. cbn. fold tv. eapply Forall_impl; [|exact Hhd].
      unfold sec_le. intros a Ha. lia. }
    assert (Hb' : Forall (tv_le tv) tvs) by (apply Hb; cbn; lia).
    exists (tv :: tvs), m'. split; [|split; [|split]].
    + cbn [fio_gettime_seq]. unfold bind at 1. rewrite Hone.
      unfold bind at 1. rewrite Hrun. reflexivity.
    + constructor; assumption.
    + intros Hv. constructor; [now apply Htvle|].
      eapply Forall_impl; [|exact Hb'].
      intros a Ha. eapply tv_le_trans; [apply Htvle, Hv | exact Ha].
    + cbn [map]. now rewrite Htvsec, Hsecs.
Qed.

Lemma gtod_samples_in_order_witness :
  exists tvs m',
    fio_gettime_seq [mk_timeval 0 0; mk_timeval 0 0; mk_timeval 0 0]
      (mk_machine
         (mk_globals 0 0 (mk_timeval 0 0) 0 CS_GTOD None)
         (mk_world [Some (mk_timeval 5 500000); Some (mk_timeval 5 100);
                    Some (mk_timeval 6 0)] [] [] []))
    = Done tvs m' /\
    StronglySorted tv_le tvs.
Proof.
  destruct (gtod_samples_in_order
              [mk_timeval 5 500000; mk_timeval 5 100; mk_timeval 6 0]
              [mk_timeval 0 0; mk_timeval 0 0; mk_timeval 0 0]
              (mk_machine
                 (mk_globals 0 0 (mk_timeval 0 0) 0 CS_GTOD None)
                 (mk_world [Some (mk_timeval 5 500000); Some (mk_timeval 5 100);
                            Some (mk_timeval 6 0)] [] [] []))
              [])
    as (tvs & m' & Hrun & Hsorted & _ & _).
  - reflexivity.
  - reflexivity.
  - reflexivity.
  - reflexivity.
  - repeat constructor; unfold sec_le; cbn; lia.
  - intros H. cbn in H. now destruct H.
  - exists tvs, m'. now split.
Defined.

Lemma cycles_to_timeval_mono cpu t1 t2 :
  0 < cpu -> ulong_range t1 -> ulong_range t2 -> t1 <= t2 ->
  tv_le (cycles_to_timeval t1 cpu) (cycles_to_timeval t2 cpu).
Proof.
  intros Hcpu H1 H2 Hle.
  rewrite !cycles_to_timeval_exact by assumption.
  assert (Hu : t1 / cpu <= t2 / cpu) by (apply Z.div_le_mono; lia).
  pose proof (Z.div_mod (t1 / cpu) 1000000 ltac:(lia)) as E1.
  pose proof (Z.div_mod (t2 / cpu) 1000000 ltac:(lia)) as E2.
  pose proof (Z.mod_pos_bound (t1 / cpu) 1000000 ltac:(lia)) as B1.
  pose proof (Z.mod_pos_bound (t2 / cpu) 1000000 ltac:(lia)) as B2.
  unfold tv_le, tv_lt. cbn [tv_sec tv_usec]. lia.
Qed.

Lemma running_max_bounds cs :
  forall last,
    ulong_range last -> Forall ulong_range cs ->
    Forall (fun t => ulong_range t /\ last <= t) (running_max last cs).
Proof.
  induction cs as [|c cs IH]; intros last Hlast Hcs; cbn [running_max].
  - constructor.
  - inversion Hcs as [|? ? Hc Hrest]; subst.
    assert (Ht : ulong_range (Z.max c last)) by (unfold ulong_range in *; lia).
    constructor; [split; [exact Ht | lia]|].
    eapply Forall_impl; [|apply (IH _ Ht Hrest)].
    intros a [Ha Hle]. split; [exact Ha | lia].
Qed.

(** X7. With the CPU cycle counter as source and a calibrated constant, the
    samples successive calls return are in order whatever the counter reads,
    also when it goes back: each is the conversion of the largest reading so
    far, and none is before an earlier one. *)
Theorem cpuclock_samples_in_order (cs : list Z) :
  forall (tps : list timeval) (m : machine) (rest : list Z),
    fio_tv (glob m) = None ->
    fio_clock_source (glob m) = CS_CPUCLOCK ->
    0 < cycles_per_usec (glob m) ->
    ulong_range (last_cycles (glob m)) ->
    cpu_tape (env m) = cs ++ rest ->
    List.length tps = List.length cs ->
    Forall ulong_range cs ->
    (last_tv_valid (glob m) = 0 \/
     last_tv (glob m)
     = cycles_to_timeval (last_cycles (glob m)) (cycles_per_usec (glob m))) ->
    let tvs := map (fun t => cycles_to_timeval t (cycles_per_usec (glob m)))
                 (running_max (last_cycles (glob m)) cs) in
    (exists m', fio_gettime_seq tps m = Done tvs m') /\
    StronglySorted tv_le tvs.
Proof.
  induction cs as [|c cs IH];
    intros tps m rest Hnull Hcs Hcpu Hlast Htape Hlen Hrange Hstate tvs.
  - destruct tps; [|discriminate]. subst tvs. cbn.
    split; [now exists m | constructor].
  - destruct tps as [|tp tps]; [discriminate|]. injection Hlen as Hlen.
    inversion Hrange as [|? ? Hc Hrange']; subst.
    cbn [app] in Htape.
    pose proof (fio_gettime_cpu_step tp m c _ Hnull Hcs Htape ltac:(lia)) as Hone.
    cbv zeta in Hone.
    set (cpu := cycles_per_usec (glob m)) in *.
    set (t := Z.max c (last_cycles (glob m))) in *.
    assert (Ht : ulong_range t) by (unfold t, ulong_range in *; lia).
    assert (Hid : fixup (glob m) (cycles_to_timeval t cpu) = cycles_to_timeval t cpu).
    { apply fixup_id. destruct Hstate as [Hv|Heq]; [now left|].
      right. rewrite Heq. apply cycles_to_timeval_mono; try assumption. unfold t. lia. }
    rewrite Hid in Hone.
    set (m1 := mk_machine _ _) in Hone.
    destruct (IH tps m1 rest) as [[m' Hrun] Hsorted]; try assumption; try reflexivity.
    { right. reflexivity. }
    subst tvs. cbn [running_max map]. fold t.
    change (cycles_per_usec (glob m1)) with cpu in Hrun, Hsorted.
    change (last_cycles (glob m1)) with t in Hrun, Hsorted.
    split.
    + exists m'. cbn [fio_gettime_seq]. unfold bind at 1. rewrite Hone.
      unfold bind at 1. rewrite Hrun. reflexivity.
    + constructor; [exact Hsorted|].
      apply Forall_map.
      eapply Forall_impl; [|apply (running_max_bounds cs t Ht Hrange')].
      intros a [Ha Hle]. now apply cycles_to_timeval_mono.
Qed.

Lemma cpuclock_samples_in_order_witness :
  let m := mk_machine
             (mk_globals 3000 0 (mk_timeval 0 0) 0 CS_CPUCLOCK None)
             (mk_world [] [] [9000000000; 8999999999; 9000003000] []) in
  (exists m',
     fio_gettime_seq [mk_timeval 0 0; mk_timeval 0 0; mk_timeval 0 0] m
     = Done [mk_timeval 3 0; mk_timeval 3 0; mk_timeval 3 1] m') /\
  StronglySorted tv_le [mk_timeval 3 0; mk_timeval 3 0; mk_timeval 3 1].
Proof.
  intros m.
  apply (cpuclock_samples_in_order [9000000000; 8999999999; 9000003000]
           [mk_timeval 0 0; mk_timeval 0 0; mk_timeval 0 0] m []).
  - reflexivity.
  - reflexivity.
  - cbn; lia.
  - unfold ulong_range; cbn; lia.
  - reflexivity.
  - reflexivity.
  - repeat constructor; unfold ulong_range; lia.
  - left. reflexivity.
Defined.

(* ================================================================== *)
(** ** How a call of [fio_gettime] can end *)

(** X8. [fio_gettime] aborts the process in one case only, a failed
    [clock_gettime] under the [CS_CGETTIME] source with [fio_tv] null; and it
    divides by zero in one case only, the [CS_CPUCLOCK] source with
    [cycles_per_usec] still 0 (and [fio_tv] null). *)
Theorem fio_gettime_fatal_cases (tp : timeval) (m : machine) :
  ((exists m', fio_gettime tp m = Aborted m') <->
   fio_tv (glob m) = None /\
   fio_clock_source (glob m) = CS_CGETTIME /\
   exists rest, cgettime_tape (env m) = None :: rest) /\
  ((exists m', fio_gettime tp m = Fault m') <->
   fio_tv (glob m) = None /\
   fio_clock_source (glob m) = CS_CPUCLOCK /\
   cycles_per_usec (glob m) = 0 /\
   cpu_tape (env m) <> []).
Proof.
  split; split.
  - intros [m' H]. revert H.
    unfold fio_gettime, read_clock_source. run_m.
    destruct (fio_tv (glob m)); [discriminate|]. run_m.
    destruct (fio_clock_source (glob m)).
    + unfold gettimeofday. destruct (gtod_tape (env m)); discriminate.
    + unfold clock_gettime.
      destruct (cgettime_tape (env m)) as [|[ts|] rest]; try discriminate.
      intros _. repeat split. now exists rest.
    + unfold get_cpu_clock. destruct (cpu_tape (env m)); [discriminate|].
      cbn [glob env]. destruct (cycles_per_usec (glob m) =? 0); discriminate.
    + unfold log_err. discriminate.
  - intros (Hnull & Hcs & rest & Htape).
    destruct (clock_gettime_failure_aborts m tp rest Hnull Hcs Htape) as (m' & H & _).
    now exists m'.
  - intros [m' H]. revert H.
    unfold fio_gettime, read_clock_source. run_m.
    destruct (fio_tv (glob m)); [discriminate|]. run_m.
    destruct (fio_clock_source (glob m)).
    + unfold gettimeofday. destruct (gtod_tape (env m)); discriminate.
    + unfold clock_gettime.
      destruct (cgettime_tape (env m)) as [|[ts|] rest]; discriminate.
    + unfold get_cpu_clock. destruct (cpu_tape (env m)); [discriminate|].
      cbn [glob env].
      destruct (Z.eqb_spec (cycles_per_usec (glob m)) 0); [|discriminate].
      intros _. repeat split; [assumption | discriminate].
    + unfold log_err. discriminate.
  - intros (Hnull & Hcs & Hzero & Htape).
    destruct (cpu_tape (env m)) as [|c rest] eqn:Hc; [contradiction|].
    exact (cpuclock_uncalibrated m tp c rest Hnull Hcs Hc Hzero).
Qed.

(** X9. A clock source outside the three known ones is not fatal: every call
    logs "invalid clock source" with the value, reads no clock, and returns
    what the caller's buffer held, fixed up against [last_tv]. *)
Theorem invalid_clock_source_logged (tp : timeval) (m : machine) (n : Z) :
  fio_tv (glob m) = None ->
  fio_clock_source (glob m) = CS_other n ->
  exists m',
    fio_gettime tp m = Done (fixup (glob m) tp) m' /\
    err_log (env m')
    = err_log (env m) ++ [LogErrInt "fio: invalid clock source %d" n] /\
    gtod_tape (env m') = gtod_tape (env m) /\
    cgettime_tape (env m') = cgettime_tape (env m) /\
    cpu_tape (env m') = cpu_tape (env m).
Proof.
  intros Hnull Hcs. eexists.
  unfold fio_gettime, read_clock_source, log_err.
  run_m. rewrite Hnull. run_m. rewrite Hcs. cbn.
  repeat split; reflexivity.
Qed.

Lemma invalid_clock_source_logged_witness :
  exists m',
    fio_gettime (mk_timeval 3 141592)
      (mk_machine (mk_globals 0 0 (mk_timeval 0 0) 0 (CS_other 7) None)
         (mk_world [] [] [] []))
    = Done (mk_timeval 3 141592) m' /\
    err_log (env m') = [LogErrInt "fio: invalid clock source %d" 7].
Proof.
  destruct (invalid_clock_source_logged (mk_timeval 3 141592)
              (mk_machine (mk_globals 0 0 (mk_timeval 0 0) 0 (CS_other 7) None)
                 (mk_world [] [] [] [])) 7 eq_refl eq_refl)
    as (m' & Hrun & Hlog & _).
  exists m'. split; [exact Hrun | exact Hlog].
Defined.

(* ================================================================== *)
(** ** Normalised samples *)

Lemma fixup_usec_ok g cand :
  usec_ok cand ->
  last_tv_valid g = 0 \/ usec_ok (last_tv g) ->
  usec_ok (fixup g cand).
Proof.
  unfold fixup, usec_ok. intros Hc Hl.
  destruct (Z.eqb_spec (last_tv_valid g) 0) as [|Hv]; [exact Hc|].
  destruct Hl as [Hl|Hl]; [contradiction|].
  destruct (tv_sec cand <? tv_sec (last_tv g)); [exact Hc|].
  destruct (_ && _); [exact Hl | exact Hc].
Qed.

(** The candidate each source gives. *)
Lemma read_clock_source_cand tp m cand m1 :
  read_clock_source tp m = Done cand m1 ->
  match fio_clock_source (glob m) with
  | CS_GTOD =>
      exists r rest, gtod_tape (env m) = r :: rest /\
                     cand = match r with Some tv => tv | None => tp end
  | CS_CGETTIME =>
      exists ts rest, cgettime_tape (env m) = Some ts :: rest /\
                      cand = mk_timeval (ts_sec ts) (Z.quot (ts_nsec ts) 1000)
  | CS_CPUCLOCK =>
      exists c rest, cpu_tape (env m) = c :: rest /\
                     cycles_per_usec (glob m) <> 0 /\
                     cand = cycles_to_timeval (Z.max c (last_cycles (glob m)))
                              (cycles_per_usec (glob m))
  | CS_other _ => cand = tp
  end.
Proof.
  unfold read_clock_source. run_m.
  destruct (fio_clock_source (glob m)).
  - unfold gettimeofday. destruct (gtod_tape (env m)) as [|r rest]; [discriminate|].
    intros H. injection H as <- _. now exists r, rest.
  - unfold clock_gettime.
    destruct (cgettime_tape (env m)) as [|[ts|] rest]; try discriminate.
    cbn. intros H. injection H as <- _. now exists ts, rest.
  - unfold get_cpu_clock. destruct (cpu_tape (env m)) as [|c rest]; [discriminate|].
    cbn [glob env].
    destruct (Z.eqb_spec (cycles_per_usec (glob m)) 0); [discriminate|].
    cbn. intros H. injection H as <- _. exists c, rest.
    repeat split; try assumption.
    f_equal. destruct (Z.ltb_spec c (last_cycles (glob m))); lia.
  - unfold log_err. cbn. intros H. now injection H as <- _.
Qed.

(** X10. The samples [fio_gettime] computes itself are normalised: with the
    [clock_gettime] source (nanoseconds below 10^9) or the cycle counter
    source, and a [last_tv] that is normalised or not yet valid, the
    microsecond field returned lies in [0, 1000000). *)
Theorem computed_samples_normalised (tp tv : timeval) (m m' : machine) :
  fio_tv (glob m) = None ->
  fio_gettime tp m = Done tv m' ->
  last_tv_valid (glob m) = 0 \/ usec_ok (last_tv (glob m)) ->
  match fio_clock_source (glob m) with
  | CS_CGETTIME =>
      forall ts rest, cgettime_tape (env m) = Some ts :: rest ->
                      0 <= ts_nsec ts < 1000000000
  | CS_CPUCLOCK =>
      0 < cycles_per_usec (glob m) /\
      ulong_range (last_cycles (glob m)) /\
      forall c rest, cpu_tape (env m) = c :: rest -> ulong_range c
  | _ => False
  end ->
  usec_ok tv /\ usec_ok (last_tv (glob m')).
Proof.
  intros Hnull Hrun Hlast Hsrc.
  destruct (fio_gettime_null_inv tp m tv m' Hnull Hrun)
    as (cand & m1 & Hread & -> & _ & Hltv & _).
  rewrite Hltv.
  assert (Hcand : usec_ok cand).
  { pose proof (read_clock_source_cand tp m cand m1 Hread) as Hc.
    destruct (fio_clock_source (glob m)); try contradiction.
    - destruct Hc as (ts & rest & Htape & ->).
      specialize (Hsrc ts rest Htape). unfold usec_ok. cbn [tv_usec].
      split.
      + apply Z.quot_pos; lia.
      + apply Z.quot_lt_upper_bound; lia.
    - destruct Hc as (c & rest & Htape & Hnz & ->).
      destruct Hsrc as (Hcpu & Hlc & Hc). specialize (Hc c rest Htape).
      rewrite cycles_to_timeval_exact
        by (assumption || (unfold ulong_range in *; lia)).
      unfold usec_ok. cbn [tv_usec]. apply Z.mod_pos_bound. lia. }
  split; now apply fixup_usec_ok.
Qed.

Lemma computed_samples_normalised_witness :
  usec_ok (mk_timeval 7 999999).
Proof.
  refine (proj1 (computed_samples_normalised (mk_timeval 0 0) (mk_timeval 7 999999)
                   (mk_machine
                      (mk_globals 0 0 (mk_timeval 7 999999) 1 CS_CGETTIME None)
                      (mk_world [] [Some (mk_timespec 7 999999999)] [] []))
                   (mk_machine
                      (mk_globals 0 0 (mk_timeval 7 999999) 1 CS_CGETTIME None)
                      (mk_world [] [] [] []))
                   eq_refl _ _ _)).
  - vm_compute. reflexivity.
  - right. unfold usec_ok. cbn. lia.
  - cbn. intros ts rest H. injection H as <- _. cbn. lia.
Defined.

(* ================================================================== *)
(** ** A sampling round, read backwards *)

Lemma gettimeofday_frame tp m tv m' :
  gettimeofday tp m = Done tv m' ->
  glob m' = glob m /\ cgettime_tape (env m') = cgettime_tape (env m) /\
  cpu_tape (env m') = cpu_tape (env m) /\ err_log (env m') = err_log (env m).
Proof.
  unfold gettimeofday. destruct (gtod_tape (env m)); [discriminate|].
  intros H. injection H as _ <-. repeat split.
Qed.

Lemma get_cpu_clock_frame m c m' :
  get_cpu_clock m = Done c m' ->
  glob m' = glob m /\ cgettime_tape (env m') = cgettime_tape (env m) /\
  gtod_tape (env m') = gtod_tape (env m) /\ err_log (env m') = err_log (env m).
Proof.
  unfold get_cpu_clock. destruct (cpu_tape (env m)); [discriminate|].
  intros H. injection H as _ <-. repeat split.
Qed.

Lemma poll_wall_clock_frame fuel :
  forall s e0 m e m',
    poll_wall_clock fuel s e0 m = Done e m' ->
    glob m' = glob m /\ cgettime_tape (env m') = cgettime_tape (env m) /\
    cpu_tape (env m') = cpu_tape (env m) /\ err_log (env m') = err_log (env m).
Proof.
  induction fuel as [|fuel IH]; intros s e0 m e m'; cbn [poll_wall_clock].
  - discriminate.
  - intros H. apply bind_Done_inv in H. destruct H as (e1 & m1 & Hg & H).
    destruct (gettimeofday_frame _ _ _ _ Hg) as (G1 & G2 & G3 & G4).
    destruct (10 <=? utime_since s e1).
    + unfold ret in H. injection H as _ <-. now repeat split.
    + apply IH in H. destruct H as (H1 & H2 & H3 & H4).
      repeat split; congruence.
Qed.

(** While every reading of the wall clock stays within 10 microseconds of
    the first, the loop finds no exit. *)
Lemma poll_wall_clock_stalls s (polls : list timeval) :
  Forall (fun p => utime_since s p < 10) polls ->
  forall fuel e0 m,
    gtod_tape (env m) = map Some polls ->
    poll_wall_clock fuel s e0 m = Starved.
Proof.
  induction 1 as [|p polls Hp _ IH]; intros fuel e0 m Htape.
  - destruct fuel; [reflexivity|]. cbn [poll_wall_clock map] in *.
    unfold bind, gettimeofday. now rewrite Htape.
  - destruct fuel; [reflexivity|]. cbn [poll_wall_clock map] in *.
    unfold bind. rewrite (gettimeofday_some _ _ _ _ Htape).
    destruct (Z.leb_spec 10 (utime_since s p)); [lia|].
    apply IH. reflexivity.
Qed.

(** A list of readings is early throughout, or has a first reading that is
    late enough. *)
Lemma first_late_reading s (polls : list timeval) :
  Forall (fun p => utime_since s p < 10) polls \/
  exists early e rest,
    polls = early ++ e :: rest /\
    Forall (fun p => utime_since s p < 10) early /\
    10 <= utime_since s e.
Proof.
  induction polls as [|p polls IH]; [left; constructor|].
  destruct (Z_lt_le_dec (utime_since s p) 10) as [Hp|Hp].
  - destruct IH as [IH|(early & e & rest & -> & Hearly & Hlate)].
    + left. now constructor.
    + right. exists (p :: early), e, rest. repeat split; [now constructor | assumption].
  - right. exists [], p, polls. repeat split; [constructor | assumption].
Qed.

(** X11. A sampling round does not end while the wall clock stalls: if every
    reading after the first stays less than 10 microseconds away from it, the
    round uses up all the readings there are without returning. *)
Theorem round_needs_ten_microseconds
  (junk s : timeval) (polls : list timeval) (m : machine) :
  gtod_tape (env m) = Some s :: map Some polls ->
  Forall (fun p => utime_since s p < 10) polls ->
  get_cycles_per_usec junk m = Starved.
Proof.
  intros Htape Hearly.
  unfold get_cycles_per_usec. unfold bind at 1.
  rewrite (gettimeofday_some _ _ _ _ Htape).
  unfold bind at 1.
  destruct (get_cpu_clock _) as [c_s m2| | |] eqn:Hc; try reflexivity.
  - destruct (get_cpu_clock_frame _ _ _ Hc) as (_ & _ & Hgt & _).
    unfold bind at 1. unfold get_machine. unfold bind at 1.
    rewrite (poll_wall_clock_stalls s polls Hearly); [reflexivity|].
    rewrite Hgt. reflexivity.
  - unfold get_cpu_clock in Hc. destruct (cpu_tape _); discriminate.
  - unfold get_cpu_clock in Hc. destruct (cpu_tape _); discriminate.
Qed.

Lemma round_needs_ten_microseconds_witness :
  get_cycles_per_usec (mk_timeval 0 0)
    (mk_machine (mk_globals 0 0 (mk_timeval 0 0) 0 CS_CPUCLOCK None)
       (mk_world [Some (mk_timeval 100 0); Some (mk_timeval 100 4);
                  Some (mk_timeval 100 9)] [] [1000; 37000] []))
  = Starved.
Proof.
  apply (round_needs_ten_microseconds (mk_timeval 0 0) (mk_timeval 100 0)
           [mk_timeval 100 4; mk_timeval 100 9]).
  - reflexivity.
  - repeat constructor.
Defined.

(** A round over readings that all succeed, run forwards. *)
Lemma round_result (m : machine) (junk s e : timeval) (early : list timeval)
  (rest : list (option timeval)) (c_s c_e : Z) (crest : list Z) :
  gtod_tape (env m) = Some s :: map Some early ++ Some e :: rest ->
  cpu_tape (env m) = c_s :: c_e :: crest ->
  Forall (fun p => utime_since s p < 10) early ->
  10 <= utime_since s e ->
  get_cycles_per_usec junk m = Done (to_ulong (c_e - c_s)) (with_tapes m rest crest).
Proof.
  intros Hgt Hct Hearly Hlate.
  unfold get_cycles_per_usec. unfold bind at 1.
  rewrite (gettimeofday_some _ _ _ _ Hgt).
  unfold bind at 1.
  rewrite (get_cpu_clock_some _ c_s (c_e :: crest)) by (cbn; exact Hct).
  unfold bind at 1. unfold get_machine. unfold bind at 1.
  rewrite (poll_wall_clock_stops s e rest Hlate early);
    cbn [with_tapes env glob gtod_tape cpu_tape].
  - unfold bind, get_cpu_clock, ret, with_tapes. cbn. reflexivity.
  - exact Hearly.
  - reflexivity.
  - rewrite length_app, length_map. cbn. lia.
Qed.

(** X12. A sampling round that returns has seen 10 microseconds pass: over
    wall-clock readings that all succeed, its result is the cycle difference
    taken at the first reading that is 10 microseconds or more after the
    first one, every reading before that one being passed over, and nothing
    but the readings used is gone from the machine. *)
Theorem round_returns_after_ten_microseconds
  (junk s : timeval) (polls : list timeval) (m m' : machine) (c : Z) :
  gtod_tape (env m) = Some s :: map Some polls ->
  get_cycles_per_usec junk m = Done c m' ->
  exists early e rest c_s c_e crest,
    polls = early ++ e :: rest /\
    Forall (fun p => utime_since s p < 10) early /\
    10 <= utime_since s e /\
    cpu_tape (env m) = c_s :: c_e :: crest /\
    c = to_ulong (c_e - c_s) /\
    m' = with_tapes m (map Some rest) crest.
Proof.
  intros Htape Hrun.
  destruct (first_late_reading s polls) as [Hall|(early & e & rest & -> & Hearly & Hlate)].
  - exfalso. revert Hrun.
    unfold get_cycles_per_usec. unfold bind at 1.
    rewrite (gettimeofday_some _ _ _ _ Htape). unfold bind at 1.
    destruct (get_cpu_clock _) as [c_s m2| | |] eqn:Hc; try discriminate.
    destruct (get_cpu_clock_frame _ _ _ Hc) as (_ & _ & Hgt & _).
    unfold bind at 1. unfold get_machine. unfold bind at 1.
    rewrite (poll_wall_clock_stalls s polls Hall); [discriminate|].
    rewrite Hgt. reflexivity.
  - rewrite map_app in Htape. cbn [map] in Htape.
    destruct (cpu_tape (env m)) as [|c_s [|c_e crest]] eqn:Hct.
    + unfold get_cycles_per_usec in Hrun.
      apply bind_Done_inv in Hrun. destruct Hrun as (s1 & m1 & Hg & Hrun).
      apply bind_Done_inv in Hrun. destruct Hrun as (c1 & m2 & Hc & _).
      destruct (gettimeofday_frame _ _ _ _ Hg) as (_ & _ & Hcpu & _).
      unfold get_cpu_clock in Hc. rewrite Hcpu, Hct in Hc. discriminate.
    + unfold get_cycles_per_usec in Hrun.
      apply bind_Done_inv in Hrun. destruct Hrun as (s1 & m1 & Hg & Hrun).
      apply bind_Done_inv in Hrun. destruct Hrun as (c1 & m2 & Hc & Hrun).
      apply bind_Done_inv in Hrun. destruct Hrun as (m3 & m4 & Hm & Hrun).
      apply bind_Done_inv in Hrun. destruct Hrun as (e1 & m5 & Hp & Hrun).
      apply bind_Done_inv in Hrun. destruct Hrun as (c2 & m6 & Hc2 & _).
      destruct (gettimeofday_frame _ _ _ _ Hg) as (_ & _ & Hcpu & _).
      unfold get_machine in Hm. injection Hm as <- <-.
      destruct (poll_wall_clock_frame _ _ _ _ _ _ Hp) as (_ & _ & Hcpu5 & _).
      unfold get_cpu_clock in Hc. rewrite Hcpu, Hct in Hc.
      injection Hc as <- <-.
      unfold get_cpu_clock in Hc2. rewrite Hcpu5 in Hc2. cbn in Hc2. discriminate.
    + rewrite (round_result m junk s e early (map Some rest) c_s c_e crest
                 Htape Hct Hearly Hlate) in Hrun.
      injection Hrun as <- <-.
      exists early, e, rest, c_s, c_e, crest. repeat split; assumption.
Qed.

Lemma round_returns_after_ten_microseconds_witness :
  exists early e rest c_s c_e crest,
    [mk_timeval 100 4; mk_timeval 100 12; mk_timeval 100 30] = early ++ e :: rest /\
    Forall (fun p => utime_since (mk_timeval 100 0) p < 10) early /\
    10 <= utime_since (mk_timeval 100 0) e /\
    [1000; 37000] = c_s :: c_e :: crest /\
    36000 = to_ulong (c_e - c_s) /\
    mk_machine (mk_globals 0 0 (mk_timeval 0 0) 0 CS_CPUCLOCK None)
      (mk_world [Some (mk_timeval 100 30)] [] [] [])
    = with_tapes
        (mk_machine (mk_globals 0 0 (mk_timeval 0 0) 0 CS_CPUCLOCK None)
           (mk_world [Some (mk_timeval 100 0); Some (mk_timeval 100 4);
                      Some (mk_timeval 100 12); Some (mk_timeval 100 30)]
              [] [1000; 37000] []))
        (map Some rest) crest.
Proof.
  apply (round_returns_after_ten_microseconds (mk_timeval 0 0) (mk_timeval 100 0)
           [mk_timeval 100 4; mk_timeval 100 12; mk_timeval 100 30]
           (mk_machine (mk_globals 0 0 (mk_timeval 0 0) 0 CS_CPUCLOCK None)
              (mk_world [Some (mk_timeval 100 0); Some (mk_timeval 100 4);
                         Some (mk_timeval 100 12); Some (mk_timeval 100 30)]
                 [] [1000; 37000] []))).
  - reflexivity.
  - vm_compute. reflexivity.
Defined.

(* ================================================================== *)
(** ** What the calibration touches *)

Lemma get_cycles_per_usec_frame junk m c m' :
  get_cycles_per_usec junk m = Done c m' ->
  glob m' = glob m /\ cgettime_tape (env m') = cgettime_tape (env m) /\
  err_log (env m') = err_log (env m).
Proof.
  unfold get_cycles_per_usec. intros H.
  apply bind_Done_inv in H. destruct H as (s & m1 & H1 & H).
  apply bind_Done_inv in H. destruct H as (c_s & m2 & H2 & H).
  apply bind_Done_inv in H. destruct H as (m3 & m4 & H3 & H).
  apply bind_Done_inv in H. destruct H as (e & m5 & H5 & H).
  apply bind_Done_inv in H. destruct H as (c_e & m6 & H6 & H).
  unfold get_machine in H3. injection H3 as <- <-.
  unfold ret in H. injection H as _ <-.
  destruct (gettimeofday_frame _ _ _ _ H1) as (A1 & A2 & _ & A4).
  destruct (get_cpu_clock_frame _ _ _ H2) as (B1 & B2 & _ & B4).
  destruct (poll_wall_clock_frame _ _ _ _ _ _ H5) as (C1 & C2 & _ & C4).
  destruct (get_cpu_clock_frame _ _ _ H6) as (D1 & D2 & _ & D4).
  repeat split; congruence.
Qed.

Section CalibrationFrame.

Context {D : Type} {ops : DoubleOps D}.
Variable junk : timeval.

Lemma sample_loop_frame n :
  forall i cycles st m r m',
    sample_loop junk n i cycles st m = Done r m' ->
    glob m' = glob m /\ cgettime_tape (env m') = cgettime_tape (env m) /\
    err_log (env m') = err_log (env m).
Proof.
  induction n as [|n IH]; intros i cycles st m r m'; cbn [sample_loop].
  - unfold ret. intros H. injection H as _ <-. repeat split.
  - intros H. apply bind_Done_inv in H. destruct H as (c & m1 & Hc & H).
    apply get_cycles_per_usec_frame in Hc. apply IH in H.
    destruct Hc as (A1 & A2 & A3). destruct H as (B1 & B2 & B3).
    repeat split; congruence.
Qed.

Lemma calibration_stats_frame cycles0 m r m' :
  calibration_stats junk cycles0 m = Done r m' ->
  glob m' = glob m /\ cgettime_tape (env m') = cgettime_tape (env m) /\
  err_log (env m') = err_log (env m).
Proof.
  unfold calibration_stats. intros H.
  apply bind_Done_inv in H. destruct H as (c0 & m1 & Hc & H).
  apply bind_Done_inv in H. destruct H as (r1 & m2 & Hl & H).
  destruct r1 as [cycles [mean Sq]]. unfold ret in H. injection H as _ <-.
  apply get_cycles_per_usec_frame in Hc. apply sample_loop_frame in Hl.
  destruct Hc as (A1 & A2 & A3). destruct Hl as (B1 & B2 & B3).
  repeat split; congruence.
Qed.

Lemma calibrate_cpu_clock_frame cycles0 m m' :
  calibrate_cpu_clock junk cycles0 m = Done tt m' ->
  last_cycles (glob m') = last_cycles (glob m) /\
  last_tv (glob m') = last_tv (glob m) /\
  last_tv_valid (glob m') = last_tv_valid (glob m) /\
  fio_clock_source (glob m') = fio_clock_source (glob m) /\
  fio_tv (glob m') = fio_tv (glob m) /\
  cgettime_tape (env m') = cgettime_tape (env m) /\
  err_log (env m') = err_log (env m).
Proof.
  unfold calibrate_cpu_clock. intros H.
  apply bind_Done_inv in H. destruct H as (r & m1 & Hs & H).
  destruct r as [[cycles mean] Sq].
  apply calibration_stats_frame in Hs. destruct Hs as (A1 & A2 & A3).
  destruct (average_loop 10 0 cycles mean Sq 0 0) as [[samples avg]|]; [|discriminate].
  destruct (samples * 10 =? 0); [discriminate|].
  revert H. run_m. intros H. injection H as <-. cbn.
  rewrite A1, A2, A3. repeat split.
Qed.

(** X13. [fio_clock_init] clears [last_tv_valid] and, through the
    calibration, sets [cycles_per_usec]; it leaves [last_cycles], [last_tv],
    the clock source, [fio_tv] and the error log as they were. The first
    [fio_gettime] after it therefore returns what the clock source gives,
    without fix-up, whatever [last_tv] held. *)
Theorem fio_clock_init_effect (cycles0 : list Z) (m m' : machine) :
  fio_clock_init junk cycles0 m = Done tt m' ->
  (last_tv_valid (glob m') = 0 /\
   last_cycles (glob m') = last_cycles (glob m) /\
   last_tv (glob m') = last_tv (glob m) /\
   fio_clock_source (glob m') = fio_clock_source (glob m) /\
   fio_tv (glob m') = fio_tv (glob m) /\
   err_log (env m') = err_log (env m)) /\
  (forall tp tv m'',
     fio_tv (glob m) = None ->
     fio_gettime tp m' = Done tv m'' ->
     exists m1, read_clock_source tp m' = Done tv m1).
Proof.
  unfold fio_clock_init. intros H.
  apply bind_Done_inv in H. destruct H as ([] & m1 & Hreset & H).
  revert Hreset. unfold reset_last_tv. run_m. intros Hreset. injection Hreset as <-.
  apply calibrate_cpu_clock_frame in H. cbn in H.
  destruct H as (A1 & A2 & A3 & A4 & A5 & _ & A7).
  assert (Hframe :
    last_tv_valid (glob m') = 0 /\
    last_cycles (glob m') = last_cycles (glob m) /\
    last_tv (glob m') = last_tv (glob m) /\
    fio_clock_source (glob m') = fio_clock_source (glob m) /\
    fio_tv (glob m') = fio_tv (glob m) /\
    err_log (env m') = err_log (env m)) by (repeat split; assumption).
  split; [exact Hframe|].
  intros tp tv m'' Hnull Hrun.
  destruct Hframe as (Hv & _ & _ & _ & Hfix & _).
  rewrite <- Hfix in Hnull.
  destruct (fio_gettime_null_inv tp m' tv m'' Hnull Hrun)
    as (cand & m0 & Hread & Htv & _).
  exists m0. rewrite Htv, fixup_id by (now left). exact Hread.
Qed.

End CalibrationFrame.

Lemma fio_clock_init_effect_witness :
  let m := mk_machine
             (mk_globals 0 5 (mk_timeval 99 0) 1 CS_CPUCLOCK None)
             (env (machine_of_candidates (30240 :: repeat 30240 10))) in
  let m' := mk_machine
              (mk_globals 3024 5 (mk_timeval 99 0) 0 CS_CPUCLOCK None)
              (mk_world [] [] [] []) in
  last_tv_valid (glob m') = 0 /\
  last_cycles (glob m') = last_cycles (glob m) /\
  last_tv (glob m') = last_tv (glob m) /\
  fio_clock_source (glob m') = fio_clock_source (glob m) /\
  fio_tv (glob m') = fio_tv (glob m) /\
  err_log (env m') = err_log (env m).
Proof.
  intros m m'.
  refine (proj1 (fio_clock_init_effect (ops := Binary64.ops) (mk_timeval 0 0)
                   junk_array m m' _)).
  vm_compute. reflexivity.
Defined.

(* ================================================================== *)
(** ** Where the calibration constant lies *)

Lemma list_sum_bounds lo hi xs :
  Forall (fun x => lo <= x <= hi) xs ->
  Z.of_nat (List.length xs) * lo <= list_sum xs <= Z.of_nat (List.length xs) * hi.
Proof.
  induction 1 as [|x xs Hx _ IH].
  - cbn. lia.
  - unfold list_sum in *. cbn [fold_right List.length]. lia.
Qed.

Lemma Forall_filter {A : Type} (P : A -> Prop) (f : A -> bool) xs :
  Forall P xs -> Forall P (filter f xs).
Proof.
  induction 1 as [|x xs Hx _ IH]; cbn [filter]; [constructor|].
  destruct (f x); [constructor|]; assumption.
Qed.

Lemma mean_over_ten_bounds lo hi kept :
  kept <> [] ->
  Forall (fun x => lo <= x <= hi) kept ->
  lo / 10 <= list_sum kept / (Z.of_nat (List.length kept) * 10) <= hi / 10.
Proof.
  intros Hne Hall.
  pose proof (list_sum_bounds lo hi kept Hall) as [Hlo Hhi].
  assert (Hn : 0 < Z.of_nat (List.length kept)).
  { destruct kept; [contradiction|]. cbn [List.length]. lia. }
  set (n := Z.of_nat (List.length kept)) in *.
  split.
  - rewrite <- (Z.div_mul_cancel_l lo 10 n) by lia.
    apply Z.div_le_mono; lia.
  - rewrite <- (Z.div_mul_cancel_l hi 10 n) by lia.
    apply Z.div_le_mono; lia.
Qed.

(** X14. The calibration constant lies between a tenth of the smallest and a
    tenth of the largest candidate: in any arithmetic in which the additions
    of the retained candidates are exact and a candidate is retained, and
    always so without rounding when the candidates add up to less than
    2^64. *)
Theorem calibration_constant_between
  (junk : timeval) (cycles0 : list Z) (m m' : machine) (c0 : Z) (xs : list Z)
  (lo hi : Z) :
  List.length cycles0 = 10%nat ->
  sample_rounds junk 11 m = Done (c0 :: xs) m' ->
  Forall (fun x => lo <= x <= hi) xs ->
  (forall (D : Type) (ops : DoubleOps D),
     let mean := fst (welford 0 xs (d_of_Z 0, d_of_Z 0)) in
     let sd := d_sqrt (d_div (snd (welford 0 xs (d_of_Z 0, d_of_Z 0)))
                         (d_sub (d_of_Z 10) (d_of_Z 1))) in
     let kept := filter (retained mean sd) xs in
     kept <> [] ->
     accumulate kept 0 = Some (list_sum kept) ->
     exists m'',
       calibrate_cpu_clock junk cycles0 m = Done tt m'' /\
       lo / 10 <= cycles_per_usec (glob m'') <= hi / 10) /\
  (list_sum xs < 2 ^ 64 ->
   exists m'',
     calibrate_cpu_clock (ops := Exact.ops) junk cycles0 m = Done tt m'' /\
     lo / 10 <= cycles_per_usec (glob m'') <= hi / 10).
Proof.
  intros Hlen Hrounds Hall.
  assert (Hgen : forall (D : Type) (ops : DoubleOps D),
     let mean := fst (welford 0 xs (d_of_Z 0, d_of_Z 0)) in
     let sd := d_sqrt (d_div (snd (welford 0 xs (d_of_Z 0, d_of_Z 0)))
                         (d_sub (d_of_Z 10) (d_of_Z 1))) in
     let kept := filter (retained mean sd) xs in
     kept <> [] ->
     accumulate kept 0 = Some (list_sum kept) ->
     exists m'',
       calibrate_cpu_clock junk cycles0 m = Done tt m'' /\
       lo / 10 <= cycles_per_usec (glob m'') <= hi / 10).
  { intros D ops mean sd kept Hne Hexact.
    rewrite (calibrate_cpu_clock_rounds junk cycles0 m m' c0 xs Hlen Hrounds).
    fold mean sd kept. rewrite Hexact.
    unfold kept at 1. rewrite length_filter_pos by exact Hne.
    eexists. split; [reflexivity|]. cbn [with_cycles_per_usec glob cycles_per_usec].
    apply mean_over_ten_bounds; [exact Hne|]. now apply Forall_filter. }
  split; [exact Hgen|].
  intros Hsum.
  assert (Hxs : List.length xs = 10%nat).
  { apply sample_rounds_length in Hrounds. cbn in Hrounds. lia. }
  assert (Hrange : Forall ulong_range xs).
  { apply sample_rounds_range in Hrounds. now inversion Hrounds. }
  specialize (Hgen R Exact.ops). cbv zeta in Hgen.
  change (@d_of_Z R Exact.ops 0) with 0%R in Hgen.
  rewrite (ExactFacts.welford_exact xs) in Hgen by (intros ->; discriminate).
  cbn [fst snd] in Hgen.
  replace (d_sqrt (d_div (Exact.sum_sq_dev (Exact.mean_of xs) xs)
                     (d_sub (d_of_Z 10) (d_of_Z 1))))
    with (Exact.sample_sd xs) in Hgen.
  2:{ unfold Exact.sample_sd. rewrite Hxs.
      cbn [d_sqrt d_div d_sub d_of_Z Exact.ops INR]. do 2 f_equal. lra. }
  apply Hgen.
  - apply ExactFacts.some_candidate_retained. lia.
  - rewrite (ExactFacts.accumulate_exact _ 0).
    + reflexivity.
    + lia.
    + now apply Forall_filter_range.
    + pose proof (list_sum_filter_le
                    (retained (Exact.mean_of xs) (Exact.sample_sd xs)) xs Hrange).
      lia.
Qed.

Lemma calibration_constant_between_witness :
  exists m'',
    calibrate_cpu_clock (ops := Binary64.ops) (mk_timeval 0 0) junk_array
      (machine_of_candidates (30240 :: spread_candidates))
    = Done tt m'' /\
    2772 <= cycles_per_usec (glob m'') <= 3276.
Proof.
  destruct (calibration_constant_between (mk_timeval 0 0) junk_array
              (machine_of_candidates (30240 :: spread_candidates)) idle_machine
              30240 spread_candidates 27720 32760) as [Hgen _].
  - reflexivity.
  - vm_compute. reflexivity.
  - repeat constructor; lia.
  - apply (Hgen _ Binary64.ops).
    + vm_compute. discriminate.
    + vm_compute. reflexivity.
Defined.

(* ================================================================== *)
(** ** One round gone wrong *)

Module ExactOutlier.

Import Exact ExactFacts.
Local Open Scope R_scope.









End ExactOutlier.



(* ================================================================== *)
(** ** Elapsed time up to now *)

(** X16. The three "since now" functions take one sample with
    [fio_gettime] and leave the machine as that call leaves it. For sane
    samples they return the microseconds elapsed from [s] to the sample, the
    whole milliseconds of it and the whole seconds of it, and 0 when [s]
    is after the sample. *)
Theorem since_now_whole_units (s junk t : timeval) (m m' : machine) :
  fio_gettime junk m = Done t m' ->
  tv_sane s -> tv_sane t ->
  utime_since_now s junk m = Done (Z.max 0 (elapsed_usec s t)) m' /\
  mtime_since_now s junk m = Done (Z.max 0 (elapsed_usec s t) / 1000) m' /\
  time_since_now s junk m = Done (Z.max 0 (elapsed_usec s t) / 1000000) m'.
Proof.
  intros Hrun Hs Ht.
  unfold time_since_now, mtime_since_now, utime_since_now, bind, ret.
  rewrite Hrun, (utime_since_sane s t Hs Ht), (mtime_since_sane s t Hs Ht).
  repeat split.
  rewrite Z.div_div by lia. reflexivity.
Qed.

Lemma since_now_whole_units_witness :
  time_since_now (mk_timeval 10 900000) (mk_timeval 0 0)
    (mk_machine (mk_globals 0 0 (mk_timeval 0 0) 0 CS_GTOD None)
       (mk_world [Some (mk_timeval 13 100500)] [] [] []))
  = Done 2
      (mk_machine (mk_globals 0 0 (mk_timeval 13 100500) 1 CS_GTOD None)
         (mk_world [] [] [] [])).
Proof.
  refine (proj2 (proj2 (since_now_whole_units (mk_timeval 10 900000) (mk_timeval 0 0)
                          (mk_timeval 13 100500) _ _ _ _ _))).
  - reflexivity.
  - unfold tv_sane. cbn. lia.
  - unfold tv_sane. cbn. lia.
Defined.

(* ################################################################## *)
(** * Part IV: call accounting ([FIO_DEBUG_TIME]) *)

Import DebugTime.

From Stdlib Require Import Permutation.

(* ================================================================== *)
(** ** Lists and pointers into them *)

Lemma store_middle {A : Type} (pre : list A) (o v : A) (tl : list A) :
  store (pre ++ o :: tl) (List.length pre) v = pre ++ v :: tl.
Proof.
  induction pre as [|p pre IH]; cbn [store app List.length].
  - reflexivity.
  - now rewrite IH.
Qed.

Lemma find_pos_None (c : Z) (logs : list gtod_log) :
  find_pos c logs = None <-> ~ In c (map caller logs).
Proof.
  induction logs as [|log rest IH]; cbn [find_pos map In].
  - tauto.
  - destruct (Z.eqb_spec (caller log) c) as [E|E].
    + split; [discriminate | tauto].
    + destruct (find_pos c rest); cbn [option_map].
      * split; [discriminate|]. intros H. exfalso. apply H. right.
        destruct IH as [_ IH]. destruct (in_dec Z.eq_dec c (map caller rest)) as [I|I].
        -- exact I.
        -- specialize (IH I). discriminate.
      * split; [|reflexivity]. intros _ [H|H]; [contradiction|].
        now apply IH.
Qed.

Lemma find_pos_Some (c : Z) (logs : list gtod_log) (i : nat) :
  find_pos c logs = Some i ->
  exists l1 log l2,
    logs = l1 ++ log :: l2 /\ List.length l1 = i /\ caller log = c.
Proof.
  revert i. induction logs as [|log rest IH]; intros i; cbn [find_pos].
  - discriminate.
  - destruct (Z.eqb_spec (caller log) c) as [E|E].
    + intros H. injection H as <-. now exists [], log, rest.
    + destruct (find_pos c rest) as [j|]; cbn [option_map]; [|discriminate].
      intros H. injection H as <-.
      destruct (IH j eq_refl) as (l1 & lg & l2 & -> & <- & Hc).
      now exists (log :: l1), lg, l2.
Qed.

Lemma entries_app (a b : list head) : entries (a ++ b) = entries a ++ entries b.
Proof. unfold entries. apply flat_map_app. Qed.

Lemma entries_cons_Some (logs : list gtod_log) (tl : list head) :
  entries (Some logs :: tl) = logs ++ entries tl.
Proof. reflexivity. Qed.

Lemma entries_In (hs : list head) (log : gtod_log) :
  In log (entries hs) ->
  exists i logs, nth_error hs i = Some (Some logs) /\ In log logs.
Proof.
  induction hs as [|h hs IH]; [intros []|].
  destruct h as [logs|].
  - rewrite entries_cons_Some. intros H. apply in_app_or in H as [H|H].
    + now exists 0%nat, logs.
    + destruct (IH H) as (i & l & Hn & Hl). now exists (S i), l.
  - intros H. destruct (IH H) as (i & l & Hn & Hl). now exists (S i), l.
Qed.

(* ================================================================== *)
(** ** What the table holds *)

Section AccountingFacts.

Variable hash_ptr : Z -> Z -> Z.

Hypothesis hash_ptr_range : forall p, 0 <= hash_ptr p HASH_BITS < HASH_SIZE.

Lemma head_at_split (t : table) (c : Z) :
  List.length (hash t) = Z.to_nat HASH_SIZE ->
  Forall (fun h => h <> None) (hash t) ->
  exists pre logs post,
    hash t = pre ++ Some logs :: post /\
    List.length pre = Z.to_nat (hash_ptr c HASH_BITS) /\
    head_at (hash_ptr c HASH_BITS) t = Some (Some logs).
Proof.
  intros Hlen Hheads. pose proof (hash_ptr_range c) as Hr.
  destruct (nth_error (hash t) (Z.to_nat (hash_ptr c HASH_BITS))) as [h|] eqn:Hn.
  - destruct (nth_error_split _ _ Hn) as (pre & post & Hsplit & Hpre).
    destruct h as [logs|].
    + exists pre, logs, post. repeat split; try assumption.
      unfold head_at.
      replace ((0 <=? hash_ptr c HASH_BITS) && (hash_ptr c HASH_BITS <? HASH_SIZE))
        with true by (symmetry; apply andb_true_iff; split;
                      [apply Z.leb_le | apply Z.ltb_lt]; lia).
      exact Hn.
    + exfalso. rewrite Forall_forall in Hheads.
      apply (Hheads None); [|reflexivity].
      rewrite Hsplit. apply in_or_app. right. now left.
  - exfalso. apply nth_error_None in Hn. lia.
Qed.

Lemma placed_bucket (pre post : list head) (logs : list gtod_log) (log : gtod_log) :
  placed hash_ptr (pre ++ Some logs :: post) ->
  In log (entries (pre ++ Some logs :: post)) ->
  hash_ptr (caller log) HASH_BITS = Z.of_nat (List.length pre) ->
  In log logs.
Proof.
  intros Hpl Hin Hh.
  destruct (entries_In _ _ Hin) as (i & l & Hn & Hl).
  pose proof (Hpl i l log Hn Hl) as Hi.
  assert (i = List.length pre) by lia. subst i.
  rewrite nth_error_app2 in Hn by lia. rewrite Nat.sub_diag in Hn.
  cbn in Hn. injection Hn as <-. exact Hl.
Qed.

Lemma placed_store (pre post : list head) (logs logs' : list gtod_log) :
  placed hash_ptr (pre ++ Some logs :: post) ->
  (forall log, In log logs' ->
     hash_ptr (caller log) HASH_BITS = Z.of_nat (List.length pre)) ->
  placed hash_ptr (pre ++ Some logs' :: post).
Proof.
  intros Hpl Hnew i l log Hn Hl.
  destruct (Nat.lt_trichotomy i (List.length pre)) as [Hlt|[Heq|Hgt]].
  - apply (Hpl i l log); [|exact Hl].
    rewrite nth_error_app1 in * by lia. exact Hn.
  - subst i. rewrite nth_error_app2 in Hn by lia. rewrite Nat.sub_diag in Hn.
    cbn in Hn. injection Hn as <-. now apply Hnew.
  - apply (Hpl i l log); [|exact Hl].
    rewrite nth_error_app2 in * by lia.
    destruct (i - List.length pre)%nat as [|k] eqn:Hk; [lia|].
    exact Hn.
Qed.

Lemma Forall_heads_store (pre post : list head) (logs logs' : list gtod_log) :
  Forall (fun h => h <> None) (pre ++ Some logs :: post) ->
  Forall (fun h => h <> None) (pre ++ Some logs' :: post).
Proof.
  rewrite !Forall_app. intros [Hpre Hrest]. split; [exact Hpre|].
  inversion Hrest; subst. constructor; [discriminate | assumption].
Qed.

(** One call from a call site that has its record: no allocation, and the
    count goes up by one. *)
Lemma gtod_log_caller_known (t : table) (c : Z) :
  table_ok hash_ptr t ->
  In c (map caller (entries (hash t))) ->
  exists t' v1 n v2,
    gtod_log_caller hash_ptr c t = Ok tt t' /\
    table_ok hash_ptr t' /\
    malloc_tape t' = malloc_tape t /\
    map line (entries (hash t)) = v1 ++ (c, n) :: v2 /\
    map line (entries (hash t')) = v1 ++ (c, Int.to_ulong (n + 1)) :: v2.
Proof.
  intros (Hinit & Hlen & Hheads & Hpl & Hnd) Hin.
  destruct (head_at_split t c Hlen Hheads) as (pre & logs & post & Hsplit & Hpre & Hat).
  assert (Hinlogs : In c (map caller logs)).
  { apply in_map_iff in Hin as (log & Hc & Hl). apply in_map_iff.
    exists log. split; [exact Hc|]. rewrite Hsplit in Hpl, Hl.
    apply (placed_bucket pre post logs log Hpl Hl).
    rewrite Hc. pose proof (hash_ptr_range c). lia. }
  destruct (find_pos c logs) as [i|] eqn:Hfind.
  2:{ apply find_pos_None in Hfind. contradiction. }
  destruct (find_pos_Some c logs i Hfind) as (l1 & log & l2 & Hlogs & Hi & Hc).
  set (log' := mk_gtod_log (caller log) (Int.to_ulong (calls log + 1))).
  exists (mk_table (pre ++ Some (l1 ++ log' :: l2) :: post)
            (gtod_inited t) (malloc_tape t)),
    (map line (entries pre ++ l1)), (calls log), (map line (l2 ++ entries post)).
  split; [|split; [|split; [|split]]].
  - unfold gtod_log_caller.
    destruct (Z.eqb_spec (gtod_inited t) 0) as [E|_]; [contradiction|].
    unfold find_log, find_hash. rewrite Hat, Hfind. cbn [option_map].
    unfold bump. cbn [fst snd]. rewrite Hsplit, <- Hpre.
    rewrite nth_error_app2 by lia. rewrite Nat.sub_diag. cbn [nth_error].
    rewrite Hlogs, <- Hi. rewrite nth_error_app2 by lia.
    rewrite Nat.sub_diag. cbn [nth_error].
    now rewrite !store_middle.
  - unfold table_ok. cbn [hash gtod_inited]. rewrite Hsplit in *.
    assert (Hcallers : map caller (l1 ++ log' :: l2) = map caller logs).
    { rewrite Hlogs, !map_app. reflexivity. }
    split; [exact Hinit|]. split.
    { rewrite length_app in *. cbn [List.length] in *. exact Hlen. }
    split; [now apply (Forall_heads_store pre post logs)|]. split.
    + apply (placed_store pre post logs); [exact Hpl|].
      intros lg Hlg.
      assert (Hcl : In (caller lg) (map caller logs)).
      { rewrite <- Hcallers. now apply in_map. }
      apply in_map_iff in Hcl as (lg0 & Hc0 & Hl0). rewrite <- Hc0.
      apply (Hpl (List.length pre) logs lg0); [|exact Hl0].
      rewrite nth_error_app2 by lia. now rewrite Nat.sub_diag.
    + rewrite entries_app, entries_cons_Some, 2!map_app, Hcallers.
      rewrite entries_app, entries_cons_Some, 2!map_app in Hnd. exact Hnd.
  - reflexivity.
  - rewrite Hsplit, entries_app, entries_cons_Some, Hlogs, !map_app.
    cbn [map]. rewrite <- !app_assoc. unfold line at 3. now rewrite Hc.
  - cbn [hash]. rewrite entries_app, entries_cons_Some, !map_app.
    cbn [map]. rewrite <- !app_assoc. unfold line at 3. cbn [caller calls log'].
    now rewrite Hc.
Qed.

(** One call from a new call site: one allocation; when it succeeds the
    site gets a record counting 1, and when it fails the call crashes. *)
Lemma gtod_log_caller_new (t : table) (c : Z) :
  table_ok hash_ptr t ->
  ~ In c (map caller (entries (hash t))) ->
  match malloc_tape t with
  | true :: tape =>
      exists t' v1 v2,
        gtod_log_caller hash_ptr c t = Ok tt t' /\
        table_ok hash_ptr t' /\
        malloc_tape t' = tape /\
        map line (entries (hash t)) = v1 ++ v2 /\
        map line (entries (hash t')) = v1 ++ (c, 1) :: v2
  | _ => gtod_log_caller hash_ptr c t = Crash
  end.
Proof.
  intros (Hinit & Hlen & Hheads & Hpl & Hnd) Hnew.
  destruct (head_at_split t c Hlen Hheads) as (pre & logs & post & Hsplit & Hpre & Hat).
  assert (Hfind : find_pos c logs = None).
  { apply find_pos_None. intros Hc. apply Hnew.
    rewrite Hsplit, entries_app, entries_cons_Some, !map_app.
    apply in_or_app. right. apply in_or_app. now left. }
  assert (Hrun : gtod_log_caller hash_ptr c t
                 = match malloc_tape t with
                   | true :: tape =>
                       Ok tt (mk_table (pre ++ Some (logs ++ [mk_gtod_log c 1]) :: post)
                                (gtod_inited t) tape)
                   | _ => Crash
                   end).
  { unfold gtod_log_caller.
    destruct (Z.eqb_spec (gtod_inited t) 0) as [E|_]; [contradiction|].
    unfold find_log, find_hash. rewrite Hat, Hfind. cbn [option_map].
    destruct (malloc_tape t) as [|[|] tape]; try reflexivity.
    rewrite Hat. unfold bump. cbn [fst snd hash gtod_inited malloc_tape].
    rewrite Hsplit, <- Hpre, store_middle.
    rewrite nth_error_app2 by lia. rewrite Nat.sub_diag. cbn [nth_error].
    rewrite nth_error_app2 by lia. rewrite Nat.sub_diag. cbn [nth_error].
    now rewrite !store_middle. }
  rewrite Hrun. destruct (malloc_tape t) as [|[|] tape]; try reflexivity.
  exists (mk_table (pre ++ Some (logs ++ [mk_gtod_log c 1]) :: post)
            (gtod_inited t) tape),
    (map line (entries pre ++ logs)), (map line (entries post)).
  split; [reflexivity|]. split; [|split; [reflexivity|split]].
  - unfold table_ok. cbn [hash gtod_inited]. rewrite Hsplit in *.
    split; [exact Hinit|]. split.
    { rewrite length_app in *. cbn [List.length] in *. exact Hlen. }
    split; [now apply (Forall_heads_store pre post logs)|]. split.
    + apply (placed_store pre post logs); [exact Hpl|].
      intros lg Hlg. apply in_app_or in Hlg as [Hlg|[<-|[]]].
      * apply (Hpl (List.length pre) logs lg); [|exact Hlg].
        rewrite nth_error_app2 by lia. now rewrite Nat.sub_diag.
      * cbn [caller]. rewrite Hpre. pose proof (hash_ptr_range c). lia.
    + rewrite entries_app, entries_cons_Some, !map_app in *. cbn [map caller].
      rewrite <- app_assoc. cbn [app].
      apply (Permutation_NoDup (l := c :: map caller (entries pre)
                                       ++ map caller logs ++ map caller (entries post))).
      * rewrite !app_assoc. apply Permutation_middle.
      * constructor; [exact Hnew | exact Hnd].
  - rewrite Hsplit, entries_app, entries_cons_Some, !map_app.
    now rewrite app_assoc.
  - cbn [hash]. rewrite entries_app, entries_cons_Some, !map_app.
    cbn [map]. rewrite <- !app_assoc. reflexivity.
Qed.

End AccountingFacts.

(* ================================================================== *)
(** ** What the counts say *)

Lemma to_ulong_add_l (a b : Z) :
  Int.to_ulong (Int.to_ulong a + b) = Int.to_ulong (a + b).
Proof. unfold Int.to_ulong. now rewrite Z.add_mod_idemp_l by lia. Qed.

Lemma list_sum_app (xs ys : list Z) :
  list_sum (xs ++ ys) = list_sum xs + list_sum ys.
Proof.
  unfold list_sum. induction xs as [|x xs IH]; cbn [app fold_right]; lia.
Qed.

Lemma count_occ_snoc (cs : list Z) (c d : Z) :
  count_occ Z.eq_dec (cs ++ [c]) d
  = (count_occ Z.eq_dec cs d + (if Z.eq_dec c d then 1 else 0))%nat.
Proof.
  rewrite count_occ_app. cbn [count_occ]. now destruct (Z.eq_dec c d).
Qed.

Lemma tallied_keys (cs : list Z) (v : list (Z * Z)) (c : Z) :
  tallied cs v -> (In c (map fst v) <-> In c cs).
Proof.
  intros (_ & Hiff & _). split.
  - intros H. apply in_map_iff in H as ([d n] & Hd & Hin). cbn in Hd. subst d.
    now apply Hiff in Hin.
  - intros H. apply in_map_iff.
    exists (c, Int.to_ulong (Z.of_nat (count_occ Z.eq_dec cs c))).
    split; [reflexivity|]. apply Hiff. now split.
Qed.

Lemma tallied_nil : tallied [] [].
Proof.
  split; [constructor|]. split; [|reflexivity].
  intros c n. cbn. tauto.
Qed.

(** A line is replaced by, or inserted as, [(c, k)] with [k] one more than
    the count [c] had: the lines then account for one more call from
    [c]. *)
Lemma tallied_step (cs : list Z) (v1 old v2 : list (Z * Z)) (c n : Z) :
  tallied cs (v1 ++ old ++ v2) ->
  (old = [(c, n)] \/ (old = [] /\ n = 0 /\ ~ In c cs)) ->
  tallied (cs ++ [c]) (v1 ++ (c, Int.to_ulong (n + 1)) :: v2).
Proof.
  intros Ht Hold.
  pose proof (tallied_keys cs _ c Ht) as Hkeys.
  destruct Ht as (Hnd & Hiff & Hsum).
  assert (Hout : ~ In c (map fst v1) /\ ~ In c (map fst v2)).
  { destruct Hold as [->|(-> & _ & Hnew)].
    - rewrite !map_app in Hnd. cbn [map fst app] in Hnd.
      apply NoDup_remove_2 in Hnd. split; intros H; apply Hnd, in_or_app; tauto.
    - cbn [app] in *. rewrite map_app in Hkeys.
      split; intros H; apply Hnew, Hkeys, in_or_app; tauto. }
  destruct Hout as [Hout1 Hout2].
  assert (Hn : n = Int.to_ulong (Z.of_nat (count_occ Z.eq_dec cs c))
               \/ (n = 0 /\ count_occ Z.eq_dec cs c = 0%nat)).
  { destruct Hold as [->|(-> & -> & Hnew)].
    - left. apply (Hiff c n). apply in_or_app. right. now left.
    - right. split; [reflexivity|]. now apply count_occ_not_In. }
  assert (Hn1 : Int.to_ulong (n + 1)
                = Int.to_ulong (Z.of_nat (count_occ Z.eq_dec cs c + 1))).
  { destruct Hn as [->|[-> ->]]; [|reflexivity].
    rewrite to_ulong_add_l. f_equal. lia. }
  assert (Hsumold : list_sum (map snd old) = n \/ old = [(c, n)]).
  { destruct Hold as [->|(-> & -> & _)]; [now right | now left]. }
  split; [|split].
  - rewrite map_app. cbn [map fst].
    destruct Hold as [->|(-> & _ & _)].
    + rewrite !map_app in Hnd. exact Hnd.
    + cbn [app] in Hnd. rewrite map_app in Hnd.
      apply (Permutation_NoDup (l := c :: map fst v1 ++ map fst v2)).
      * apply Permutation_middle.
      * constructor; [|exact Hnd]. intros H. apply in_app_or in H. tauto.
  - intros d m. rewrite count_occ_snoc.
    destruct (Z.eq_dec c d) as [<-|Hcd].
    + split.
      * intros H. split; [apply in_or_app; right; now left|].
        apply in_app_or in H as [H|[H|H]].
        -- exfalso. apply Hout1. apply in_map_iff. now exists (c, m).
        -- injection H as <-. exact Hn1.
        -- exfalso. apply Hout2. apply in_map_iff. now exists (c, m).
      * intros [_ ->]. apply in_or_app. right. left. now rewrite Hn1.
    + rewrite Nat.add_0_r.
      assert (Hsame : In (d, m) (v1 ++ (c, Int.to_ulong (n + 1)) :: v2)
                      <-> In (d, m) (v1 ++ old ++ v2)).
      { rewrite !in_app_iff. cbn [In].
        destruct Hold as [->|(-> & _ & _)]; cbn [In];
          intuition congruence. }
      rewrite Hsame, Hiff, in_app_iff. cbn [In]. tauto.
  - rewrite map_app, list_sum_app. cbn [map snd].
    rewrite !map_app, !list_sum_app in Hsum.
    rewrite length_app. cbn [List.length].
    replace (Z.of_nat (List.length cs + 1)) with (Z.of_nat (List.length cs) + 1) by lia.
    rewrite <- (to_ulong_add_l (Z.of_nat (List.length cs))), <- Hsum.
    rewrite to_ulong_add_l.
    assert (Hold_sum : list_sum (map snd old) = n).
    { destruct Hold as [->|(-> & -> & _)]; [|reflexivity].
      unfold list_sum. cbn. lia. }
    rewrite Hold_sum.
    change (list_sum ((Int.to_ulong (n + 1)) :: map snd v2))
      with (Int.to_ulong (n + 1) + list_sum (map snd v2)).
    replace (list_sum (map snd v1) + (Int.to_ulong (n + 1) + list_sum (map snd v2)))
      with (Int.to_ulong (n + 1) + (list_sum (map snd v1) + list_sum (map snd v2)))
      by lia.
    rewrite to_ulong_add_l. f_equal. lia.
Qed.

Lemma lines_keys (es : list gtod_log) : map fst (map line es) = map caller es.
Proof. rewrite map_map. reflexivity. Qed.

Lemma entries_fresh (n : nat) : entries (repeat (Some []) n) = [].
Proof. induction n as [|n IH]; [reflexivity|]. cbn [repeat]. now rewrite entries_cons_Some. Qed.

(** The number of different call sites in [cs]. *)
Lemma distinct_snoc (cs : list Z) (c : Z) :
  List.length (nodup Z.eq_dec (cs ++ [c]))
  = (List.length (nodup Z.eq_dec cs) + (if in_dec Z.eq_dec c cs then 0 else 1))%nat.
Proof.
  destruct (in_dec Z.eq_dec c cs) as [Hin|Hnew].
  - rewrite Nat.add_0_r. apply Permutation_length.
    apply NoDup_Permutation; try apply NoDup_nodup.
    intros x. rewrite !nodup_In, in_app_iff. cbn [In].
    split; [intros [H|[<-|[]]]; assumption | tauto].
  - replace (List.length (nodup Z.eq_dec cs) + 1)%nat
      with (List.length (c :: nodup Z.eq_dec cs)) by (cbn [List.length]; lia).
    apply Permutation_length.
    apply NoDup_Permutation.
    + apply NoDup_nodup.
    + constructor; [now rewrite nodup_In | apply NoDup_nodup].
    + intros x. cbn [In]. rewrite !nodup_In, in_app_iff. cbn [In]. tauto.
Qed.

Lemma tallied_distinct (cs : list Z) (v : list (Z * Z)) :
  tallied cs v -> List.length v = List.length (nodup Z.eq_dec cs).
Proof.
  intros Ht. rewrite <- (length_map fst v). apply Permutation_length.
  apply NoDup_Permutation.
  - apply Ht.
  - apply NoDup_nodup.
  - intros x. rewrite nodup_In. now apply tallied_keys.
Qed.

(* ================================================================== *)
(** ** The dump *)

Lemma dump_chain_lines (logs : list gtod_log) :
  forall out total,
    ulong_range total ->
    dump_chain logs out total
    = (out ++ map line logs, Int.to_ulong (total + list_sum (map calls logs))).
Proof.
  induction logs as [|log rest IH]; intros out total Hr; cbn [dump_chain map].
  - rewrite app_nil_r. unfold list_sum. cbn [fold_right].
    rewrite Z.add_0_r, to_ulong_id by exact Hr. reflexivity.
  - rewrite IH by apply to_ulong_range.
    rewrite <- app_assoc. cbn [app]. rewrite to_ulong_add_l.
    unfold line at 2. do 2 f_equal. unfold list_sum. cbn [fold_right]. lia.
Qed.

Lemma dump_heads_lines (hs : list head) :
  forall out total,
    ulong_range total ->
    Forall (fun h => h <> None) hs ->
    dump_heads hs out total
    = Some (out ++ map line (entries hs),
            Int.to_ulong (total + list_sum (map calls (entries hs)))).
Proof.
  induction hs as [|h hs IH]; intros out total Hr Hheads; cbn [dump_heads].
  - cbn [entries flat_map map]. rewrite app_nil_r. unfold list_sum.
    cbn [fold_right]. rewrite Z.add_0_r, to_ulong_id by exact Hr. reflexivity.
  - inversion Hheads as [|? ? Hh Hrest]; subst.
    destruct h as [logs|]; [|contradiction].
    rewrite dump_chain_lines by exact Hr.
    rewrite IH by (apply to_ulong_range || exact Hrest).
    rewrite entries_cons_Some, !map_app, list_sum_app, <- app_assoc.
    rewrite to_ulong_add_l. do 3 f_equal. lia.
Qed.

Lemma dump_heads_zeroed (hs : list head) :
  forall out total, In None hs -> dump_heads hs out total = None.
Proof.
  induction hs as [|h hs IH]; intros out total Hin; [destruct Hin|].
  cbn [dump_heads]. destruct h as [logs|]; [|reflexivity].
  destruct (dump_chain logs out total) as [o t].
  apply IH. destruct Hin as [H|H]; [discriminate | exact H].
Qed.

(* ================================================================== *)
(** ** Sequences of calls *)

Section AccountingRuns.

Variable hash_ptr : Z -> Z -> Z.

Hypothesis hash_ptr_range : forall p, 0 <= hash_ptr p HASH_BITS < HASH_SIZE.

Lemma log_callers_snoc (cs : list Z) (c : Z) :
  forall t,
    log_callers hash_ptr (cs ++ [c]) t
    = match log_callers hash_ptr cs t with
      | Ok _ t1 => gtod_log_caller hash_ptr c t1
      | Crash => Crash
      end.
Proof.
  induction cs as [|d cs IH]; intros t; cbn [app log_callers].
  - destruct (gtod_log_caller hash_ptr c t) as [[] t1|]; reflexivity.
  - destruct (gtod_log_caller hash_ptr d t) as [[] t1|]; [apply IH | reflexivity].
Qed.

Lemma gtod_init_ok (t0 : table) :
  table_ok hash_ptr (gtod_init t0) /\
  map line (entries (hash (gtod_init t0))) = [].
Proof.
  unfold table_ok, gtod_init. cbn [hash gtod_inited].
  rewrite entries_fresh.
  split; [|reflexivity]. split; [discriminate|]. split; [apply repeat_length|].
  split; [|split].
  - apply Forall_forall. intros h Hh. apply repeat_spec in Hh. now subst.
  - intros i logs log Hn Hl. apply nth_error_In, repeat_spec in Hn.
    injection Hn as ->. destruct Hl.
  - constructor.
Qed.

(** One more call, from the state a run of calls has reached. *)
Lemma gtod_log_caller_next (cs : list Z) (t : table) (c : Z) :
  table_ok hash_ptr t ->
  tallied cs (map line (entries (hash t))) ->
  if in_dec Z.eq_dec c cs then
    exists t',
      gtod_log_caller hash_ptr c t = Ok tt t' /\
      table_ok hash_ptr t' /\
      tallied (cs ++ [c]) (map line (entries (hash t'))) /\
      malloc_tape t' = malloc_tape t
  else
    match malloc_tape t with
    | true :: tape =>
        exists t',
          gtod_log_caller hash_ptr c t = Ok tt t' /\
          table_ok hash_ptr t' /\
          tallied (cs ++ [c]) (map line (entries (hash t'))) /\
          malloc_tape t' = tape
    | _ => gtod_log_caller hash_ptr c t = Crash
    end.
Proof.
  intros Hok Ht.
  pose proof (tallied_keys cs _ c Ht) as Hkeys. rewrite lines_keys in Hkeys.
  destruct (in_dec Z.eq_dec c cs) as [Hin|Hnew].
  - destruct (gtod_log_caller_known hash_ptr hash_ptr_range t c Hok)
      as (t' & v1 & n & v2 & Hrun & Hok' & Htape & Hv & Hv');
      [now apply Hkeys|].
    exists t'. split; [exact Hrun|]. split; [exact Hok'|]. split; [|exact Htape].
    rewrite Hv'. apply (tallied_step cs v1 [(c, n)] v2 c n); [|now left].
    cbn [app]. now rewrite <- Hv.
  - pose proof (gtod_log_caller_new hash_ptr hash_ptr_range t c Hok) as Hstep.
    assert (Hnot : ~ In c (map caller (entries (hash t)))) by (now rewrite Hkeys).
    specialize (Hstep Hnot).
    destruct (malloc_tape t) as [|[|] tape]; try exact Hstep.
    destruct Hstep as (t' & v1 & v2 & Hrun & Hok' & Htape & Hv & Hv').
    exists t'. split; [exact Hrun|]. split; [exact Hok'|]. split; [|exact Htape].
    rewrite Hv'. apply (tallied_step cs v1 [] v2 c 0).
    + cbn [app]. now rewrite <- Hv.
    + right. now repeat split.
Qed.

(** Whatever run of calls returns leaves the table in order, with lines
    that account for the calls. *)
Lemma log_callers_reach (cs : list Z) :
  forall t0 t,
    log_callers hash_ptr cs (gtod_init t0) = Ok tt t ->
    table_ok hash_ptr t /\ tallied cs (map line (entries (hash t))).
Proof.
  induction cs as [|c cs IH] using rev_ind; intros t0 t Hrun.
  - cbn [log_callers] in Hrun. injection Hrun as <-.
    destruct (gtod_init_ok t0) as [Hok Hv]. split; [exact Hok|].
    rewrite Hv. apply tallied_nil.
  - rewrite log_callers_snoc in Hrun.
    destruct (log_callers hash_ptr cs (gtod_init t0)) as [[] t1|] eqn:Hcs;
      [|discriminate].
    destruct (IH t0 t1 Hcs) as [Hok Ht].
    pose proof (gtod_log_caller_next cs t1 c Hok Ht) as Hnext.
    destruct (in_dec Z.eq_dec c cs).
    + destruct Hnext as (t' & Hrun' & Hok' & Ht' & _).
      rewrite Hrun' in Hrun. injection Hrun as <-. now split.
    + destruct (malloc_tape t1) as [|[|] tape];
        try (rewrite Hnext in Hrun; discriminate).
      destruct Hnext as (t' & Hrun' & Hok' & Ht' & _).
      rewrite Hrun' in Hrun. injection Hrun as <-. now split.
Qed.

(** With memory for one record per call site, every call returns. *)
Lemma log_callers_returns (cs : list Z) :
  forall t0 rest,
    malloc_tape t0 = repeat true (List.length (nodup Z.eq_dec cs)) ++ rest ->
    exists t,
      log_callers hash_ptr cs (gtod_init t0) = Ok tt t /\ malloc_tape t = rest.
Proof.
  induction cs as [|c cs IH] using rev_ind; intros t0 rest Htape.
  - exists (gtod_init t0). split; [reflexivity|]. exact Htape.
  - rewrite distinct_snoc, repeat_app, <- app_assoc in Htape.
    destruct (IH t0 _ Htape) as (t1 & Hcs & Htape1).
    destruct (log_callers_reach cs t0 t1 Hcs) as [Hok Ht].
    pose proof (gtod_log_caller_next cs t1 c Hok Ht) as Hnext.
    rewrite log_callers_snoc, Hcs.
    destruct (in_dec Z.eq_dec c cs).
    + destruct Hnext as (t' & Hrun' & _ & _ & Htape').
      exists t'. split; [exact Hrun'|]. now rewrite Htape', Htape1.
    + rewrite Htape1 in Hnext. cbn [repeat app] in Hnext.
      destruct Hnext as (t' & Hrun' & _ & _ & Htape').
      exists t'. now split.
Qed.

(** X17. Call accounting. After [gtod_init], with memory for one record
    per call site, any sequence of calls of [gtod_log_caller] returns and
    uses exactly that memory; [fio_dump_gtod] then prints one line per call
    site that called, carrying the number of its calls, and a total that is
    the number of calls (counts and total in [unsigned long]). *)
Theorem call_accounting (cs : list Z) (t0 : table) (rest : list bool) :
  malloc_tape t0 = repeat true (List.length (nodup Z.eq_dec cs)) ++ rest ->
  exists t lines,
    log_callers hash_ptr cs (gtod_init t0) = Ok tt t /\
    malloc_tape t = rest /\
    fio_dump_gtod t
    = Ok (lines, Int.to_ulong (Z.of_nat (List.length cs))) t /\
    NoDup (map fst lines) /\
    (forall c n,
       In (c, n) lines <->
       In c cs /\ n = Int.to_ulong (Z.of_nat (count_occ Z.eq_dec cs c))) /\
    List.length lines = List.length (nodup Z.eq_dec cs).
Proof.
  intros Htape.
  destruct (log_callers_returns cs t0 rest Htape) as (t & Hrun & Hrest).
  destruct (log_callers_reach cs t0 t Hrun) as [Hok Ht].
  exists t, (map line (entries (hash t))).
  split; [exact Hrun|]. split; [exact Hrest|]. split.
  - unfold fio_dump_gtod.
    destruct Hok as (_ & _ & Hheads & _).
    rewrite (dump_heads_lines (hash t) [] 0) by (assumption || (unfold ulong_range; lia)).
    cbn [app Z.add].
    destruct Ht as (_ & _ & Hsum).
    rewrite map_map in Hsum.
    change (fun x => snd (line x)) with calls in Hsum. now rewrite Hsum.
  - split; [apply Ht|]. split; [apply Ht|]. now apply tallied_distinct.
Qed.

(** X18. When a call crashes. From a state that calls from [cs] have
    reached, one more call from [c] crashes exactly when [c] has not called
    before and [malloc] has no memory for its record; a call from a site
    that has called before returns without allocating. *)
Theorem gtod_log_caller_crash (cs : list Z) (t0 t : table) (c : Z) :
  log_callers hash_ptr cs (gtod_init t0) = Ok tt t ->
  (gtod_log_caller hash_ptr c t = Crash <->
   ~ In c cs /\ hd false (malloc_tape t) = false) /\
  (In c cs ->
   exists t', gtod_log_caller hash_ptr c t = Ok tt t' /\
              malloc_tape t' = malloc_tape t).
Proof.
  intros Hrun.
  destruct (log_callers_reach cs t0 t Hrun) as [Hok Ht].
  pose proof (gtod_log_caller_next cs t c Hok Ht) as Hnext.
  destruct (in_dec Z.eq_dec c cs) as [Hin|Hnew].
  - destruct Hnext as (t' & Hrun' & _ & _ & Htape'). split.
    + rewrite Hrun'. split; [discriminate | tauto].
    + intros _. now exists t'.
  - split; [|contradiction].
    destruct (malloc_tape t) as [|[|] tape]; cbn [hd].
    + now rewrite Hnext.
    + destruct Hnext as (t' & Hrun' & _). rewrite Hrun'.
      split; [discriminate | intros [_ H]; discriminate].
    + now rewrite Hnext.
Qed.

End AccountingRuns.

(** X19. The guard. While [gtod_inited] is 0 no call looks at the table or
    allocates: any sequence of calls returns with the state as it was, the
    heads that are still zeroed included. *)
Theorem calls_before_init_ignored
  (hash_ptr : Z -> Z -> Z) (cs : list Z) (t : table) :
  gtod_inited t = 0 ->
  log_callers hash_ptr cs t = Ok tt t.
Proof.
  intros Hinit. induction cs as [|c cs IH]; cbn [log_callers]; [reflexivity|].
  unfold gtod_log_caller. rewrite Hinit. exact IH.
Qed.

Lemma calls_before_init_ignored_witness :
  log_callers low_bits [4198400; 4198912; 4198400] (at_start [false])
  = Ok tt (at_start [false]).
Proof.
  apply (calls_before_init_ignored low_bits [4198400; 4198912; 4198400]
           (at_start [false])).
  reflexivity.
Defined.

Lemma low_bits_range (p : Z) : 0 <= low_bits p HASH_BITS < HASH_SIZE.
Proof.
  unfold low_bits. change HASH_SIZE with (2 ^ HASH_BITS).
  apply Z.mod_pos_bound. reflexivity.
Qed.

Lemma call_accounting_witness :
  exists t lines,
    log_callers low_bits [4198400; 4198912; 4198400; 4198656; 4198400]
      (gtod_init (at_start [true; true; true; false]))
    = Ok tt t /\
    malloc_tape t = [false] /\
    fio_dump_gtod t = Ok (lines, 5) t /\
    List.length lines = 3%nat.
Proof.
  destruct (call_accounting low_bits low_bits_range
              [4198400; 4198912; 4198400; 4198656; 4198400]
              (at_start [true; true; true; false]) [false])
    as (t & lines & Hrun & Htape & Hdump & _ & _ & Hlen).
  - reflexivity.
  - exists t, lines. split; [exact Hrun|]. split; [exact Htape|].
    split; [exact Hdump | exact Hlen].
Defined.

Lemma gtod_log_caller_crash_witness :
  exists t,
    log_callers low_bits [4198400; 4198400] (gtod_init (at_start [true; false]))
    = Ok tt t /\
    gtod_log_caller low_bits 4198912 t = Crash.
Proof.
  destruct (log_callers low_bits [4198400; 4198400]
              (gtod_init (at_start [true; false]))) as [[] t|] eqn:Hrun.
  - exists t. split; [reflexivity|].
    apply (proj1 (gtod_log_caller_crash low_bits low_bits_range
                    [4198400; 4198400] (at_start [true; false]) t 4198912 Hrun)).
    split.
    + cbn [In]. intros [H|[H|[]]]; discriminate.
    + vm_compute in Hrun. injection Hrun as <-. reflexivity.
  - vm_compute in Hrun. discriminate.
Defined.
